(** * Parallel web crawler: a shallow embedding of the coordination and
    crawl engine, and the properties of its specification.

    The development follows the Python sources:
    - [src/utils.py]            URL normalisation, text cleaning;
    - [src/config.py]           the admission filter [is_url_allowed];
    - [src/crawler_core.py]     the worker's [crawl_url] and robots check;
    - [src/mpi_coordinator.py]  the master's frontier and dispatch loop;
    - [src/database_manager.py] the [discovered_links] table.

    A Python [str] is modelled by a [string] whose characters are the code
    points 0..255 (the Latin-1 range); Python integers are [Z]; a [set] of
    strings is a [gset string], a [dict] a [gmap], a [deque] a [list].
    Functions of the Python standard library that the sources call
    ([urllib.parse.urlparse], [urlunparse], [str] methods) are embedded from
    CPython 3.11. *)

From Stdlib Require Import ZArith List Bool Ascii String Lia.
From stdpp Require Import gmap strings sorting.

Local Open Scope Z_scope.

(* stdpp's [set_solver] clears hypotheses defensively. *)
#[local] Set Warnings "-clear-no-such-hyp".

(* ===================================================================== *)
(** ** Python [str] methods *)
(* ===================================================================== *)

Module Str.

Definition chr (n : nat) : string := String (ascii_of_nat n) EmptyString.

Definition ord (c : ascii) : nat := nat_of_ascii c.

Definition between (lo hi n : nat) : bool := (Nat.leb lo n) && (Nat.leb n hi).

(** [Py_UNICODE_ISSPACE] on the code points below 256: it decides both what
    [str.strip()] and [str.split()] remove and what the regular expression
    class [\s] matches. *)
Definition isspace (c : ascii) : bool :=
  between 9 13 (ord c) || between 28 32 (ord c)
  || Nat.eqb (ord c) 133 || Nat.eqb (ord c) 160.

Definition is_ascii_upper (c : ascii) : bool := between 65 90 (ord c).
Definition is_ascii_lower (c : ascii) : bool := between 97 122 (ord c).
Definition is_ascii_alpha (c : ascii) : bool := is_ascii_upper c || is_ascii_lower c.
Definition is_ascii_digit (c : ascii) : bool := between 48 57 (ord c).

(** [str.lower()] on one character: A-Z, and the Latin-1 capitals
    U+00C0..U+00DE other than the multiplication sign U+00D7. *)
Definition lower_char (c : ascii) : ascii :=
  if is_ascii_upper c || (between 192 222 (ord c) && negb (Nat.eqb (ord c) 215))
  then ascii_of_nat (ord c + 32) else c.

Fixpoint lower (s : string) : string :=
  match s with
  | EmptyString => EmptyString
  | String c s' => String (lower_char c) (lower s')
  end.

Fixpoint all (p : ascii -> bool) (s : string) : bool :=
  match s with
  | EmptyString => true
  | String c s' => p c && all p s'
  end.

(** [s.startswith(p)] *)
Fixpoint startswith (p s : string) : bool :=
  match p, s with
  | EmptyString, _ => true
  | String a p', String b s' => Ascii.eqb a b && startswith p' s'
  | String _ _, EmptyString => false
  end.

(** [s.endswith(suffix)]: some tail of [s] is [suffix]. *)
Fixpoint endswith (s suffix : string) : bool :=
  String.eqb s suffix
  || match s with
     | EmptyString => false
     | String _ s' => endswith s' suffix
     end.

(** [sub in s] *)
Fixpoint contains (sub s : string) : bool :=
  startswith sub s
  || match s with
     | EmptyString => false
     | String _ s' => contains sub s'
     end.

(** [c in s] for a single character. *)
Fixpoint has_char (c : ascii) (s : string) : bool :=
  match s with
  | EmptyString => false
  | String a s' => Ascii.eqb a c || has_char c s'
  end.

(** [s[:n]] and [s[n:]] for [n >= 0]. *)
Fixpoint take (n : nat) (s : string) : string :=
  match n, s with
  | S k, String c s' => String c (take k s')
  | _, _ => EmptyString
  end.

Fixpoint drop (n : nat) (s : string) : string :=
  match n, s with
  | S k, String _ s' => drop k s'
  | _, _ => s
  end.

(** [s.find(c)]: index of the first occurrence, [None] for -1. *)
Fixpoint find (c : ascii) (s : string) : option nat :=
  match s with
  | EmptyString => None
  | String a s' =>
      if Ascii.eqb a c then Some O
      else match find c s' with Some i => Some (S i) | None => None end
  end.

(** [s.find(c, start)] *)
Definition find_from (c : ascii) (s : string) (start : nat) : option nat :=
  match find c (drop start s) with
  | Some i => Some (start + i)%nat
  | None => None
  end.

(** [s.rfind(c)] *)
Fixpoint rfind (c : ascii) (s : string) : option nat :=
  match s with
  | EmptyString => None
  | String a s' =>
      match rfind c s' with
      | Some i => Some (S i)
      | None => if Ascii.eqb a c then Some O else None
      end
  end.

(** [s.partition(c)]: text before the first [c], whether [c] was found,
    text after it. *)
Definition partition (c : ascii) (s : string) : string * bool * string :=
  match find c s with
  | Some i => (take i s, true, drop (S i) s)
  | None => (s, false, EmptyString)
  end.

(** [s.rpartition(c)[2]]: the text after the last [c], all of [s] when
    there is none. *)
Definition rpartition_tail (c : ascii) (s : string) : string :=
  match rfind c s with
  | Some i => drop (S i) s
  | None => s
  end.

(** [s.split(c)] for a one-character separator. *)
Fixpoint split (c : ascii) (s : string) : list string :=
  match s with
  | EmptyString => [EmptyString]
  | String a s' =>
      if Ascii.eqb a c then EmptyString :: split c s'
      else match split c s' with
           | w :: ws => String a w :: ws
           | [] => [String a EmptyString]
           end
  end.

(** [s.replace(old, new)] for a non-empty [old]: leftmost occurrences,
    not overlapping.  [skip] counts the characters of a matched occurrence
    still to be passed over. *)
Fixpoint replace_from (old new s : string) (skip : nat) : string :=
  match s with
  | EmptyString => EmptyString
  | String c s' =>
      match skip with
      | S k => replace_from old new s' k
      | O =>
          if startswith old s
          then new +:+ replace_from old new s' (String.length old - 1)
          else String c (replace_from old new s' O)
      end
  end.

Definition replace (old new s : string) : string := replace_from old new s O.

(** [s.lstrip(chars)] and [s.rstrip(chars)], the set of characters given
    as a predicate. *)
Fixpoint lstrip (p : ascii -> bool) (s : string) : string :=
  match s with
  | EmptyString => EmptyString
  | String c s' => if p c then lstrip p s' else s
  end.

Fixpoint rstrip (p : ascii -> bool) (s : string) : string :=
  match s with
  | EmptyString => EmptyString
  | String c s' =>
      match rstrip p s' with
      | EmptyString => if p c then EmptyString else String c EmptyString
      | t => String c t
      end
  end.

(** [s.strip()] *)
Definition strip (s : string) : string := rstrip isspace (lstrip isspace s).

(** [s.split()]: the maximal runs of non-whitespace characters. [cur] is
    the run being read, reversed into place by appending. *)
Fixpoint split_ws_from (s : string) (cur : string) : list string :=
  match s with
  | EmptyString => match cur with EmptyString => [] | _ => [cur] end
  | String c s' =>
      if isspace c
      then match cur with
           | EmptyString => split_ws_from s' EmptyString
           | _ => cur :: split_ws_from s' EmptyString
           end
      else split_ws_from s' (cur +:+ String c EmptyString)
  end.

Definition split_ws (s : string) : list string := split_ws_from s EmptyString.

(** [s in l] for a list (or set literal) of strings. *)
Definition in_list (s : string) (l : list string) : bool :=
  existsb (String.eqb s) l.

End Str.

(* ===================================================================== *)
(** ** [ipaddress]: the validity check behind bracketed hosts *)
(* ===================================================================== *)

Module ipaddress.

(** [_BaseV4._parse_octet] succeeds. *)
Definition parse_octet_ok (octet_str : string) : bool :=
  negb (String.eqb octet_str "")
  && Str.all Str.is_ascii_digit octet_str
  && Nat.leb (String.length octet_str) 3
  && negb (negb (String.eqb octet_str "0") && Str.startswith "0" octet_str)
  && match octet_str with
     | String a (String b (String c EmptyString)) =>
         Nat.leb ((Str.ord a - 48) * 100 + (Str.ord b - 48) * 10 + (Str.ord c - 48)) 255
     | _ => true
     end.

(** [IPv4Address(addr_str)] succeeds. *)
Definition IPv4Address_ok (addr_str : string) : bool :=
  negb (Str.has_char "/" addr_str)
  && negb (String.eqb addr_str "")
  && let octets := Str.split "." addr_str in
     Nat.eqb (length octets) 4 && forallb parse_octet_ok octets.

Definition is_hex_digit (c : ascii) : bool :=
  Str.is_ascii_digit c || Str.between 65 70 (Str.ord c) || Str.between 97 102 (Str.ord c).

(** [_BaseV6._parse_hextet] succeeds ([int('', 16)] raises on the empty
    string). *)
Definition parse_hextet_ok (hextet_str : string) : bool :=
  Str.all is_hex_digit hextet_str
  && Nat.leb (String.length hextet_str) 4
  && negb (String.eqb hextet_str "").

(** Indices [1 .. len(parts)-2] holding an empty part. *)
Definition skip_indices (parts : list string) : list nat :=
  filter (fun i => String.eqb (nth i parts "x") "")
         (seq 1 (length parts - 2)).

(** [_BaseV6._ip_int_from_string] succeeds.  Only success matters to the
    caller, so the IPv4-style suffix is replaced by two hextets ["0"] where
    the source appends the two hexadecimal halves of its value. *)
Definition ip_int_from_string_ok (ip_str : string) : bool :=
  negb (String.eqb ip_str "")
  && let parts0 := Str.split ":" ip_str in
     Nat.leb 3 (length parts0)
     && let last_part := List.last parts0 "" in
        (if Str.has_char "." last_part then IPv4Address_ok last_part else true)
        && let parts :=
             if Str.has_char "." last_part
             then removelast parts0 ++ ["0"; "0"]
             else parts0 in
           let first_empty := String.eqb (nth 0 parts "x") "" in
           let last_empty := String.eqb (List.last parts "x") "" in
           Nat.leb (length parts) 9
           && match skip_indices parts with
              | [] =>
                  Nat.eqb (length parts) 8
                  && negb first_empty && negb last_empty
                  && forallb parse_hextet_ok parts
              | [skip_index] =>
                  let parts_hi0 := skip_index in
                  let parts_lo0 := (length parts - skip_index - 1)%nat in
                  let parts_hi := if first_empty then (parts_hi0 - 1)%nat else parts_hi0 in
                  let parts_lo := if last_empty then (parts_lo0 - 1)%nat else parts_lo0 in
                  negb (first_empty && negb (Nat.eqb parts_hi 0))
                  && negb (last_empty && negb (Nat.eqb parts_lo 0))
                  && Nat.leb (parts_hi + parts_lo) 7
                  && forallb parse_hextet_ok (firstn parts_hi parts)
                  && forallb parse_hextet_ok (skipn (length parts - parts_lo) parts)
              | _ => false
              end.

(** [IPv6Address(addr_str)] succeeds, the scope id split off first. *)
Definition IPv6Address_ok (addr_str : string) : bool :=
  negb (Str.has_char "/" addr_str)
  && match Str.partition "%" addr_str with
     | (addr, sep, scope_id) =>
         negb (sep && (String.eqb scope_id "" || Str.has_char "%" scope_id))
         && ip_int_from_string_ok addr
     end.

Inductive version := V4 | V6.

(** [ip_address(address)]: [None] stands for [ValueError]. *)
Definition ip_address (address : string) : option version :=
  if IPv4Address_ok address then Some V4
  else if IPv6Address_ok address then Some V6
  else None.

End ipaddress.

(* ===================================================================== *)
(** ** [urllib.parse]: [urlsplit], [urlparse], [urlunparse] *)
(* ===================================================================== *)

Module urllib_parse.

Definition uses_netloc : list string :=
  [""; "ftp"; "http"; "gopher"; "nntp"; "telnet"; "imap"; "wais"; "file";
   "mms"; "https"; "shttp"; "snews"; "prospero"; "rtsp"; "rtspu"; "rsync";
   "svn"; "svn+ssh"; "sftp"; "nfs"; "git"; "git+ssh"; "ws"; "wss"].

Definition uses_params : list string :=
  [""; "ftp"; "hdl"; "prospero"; "http"; "imap"; "https"; "shttp"; "rtsp";
   "rtspu"; "sip"; "sips"; "mms"; "sftp"; "tel"].

(** Characters valid in scheme names. *)
Definition scheme_chars (c : ascii) : bool :=
  Str.is_ascii_alpha c || Str.is_ascii_digit c
  || Ascii.eqb c "+" || Ascii.eqb c "-" || Ascii.eqb c ".".

(** [_WHATWG_C0_CONTROL_OR_SPACE]: the code points 0..32. *)
Definition WHATWG_C0_CONTROL_OR_SPACE (c : ascii) : bool := Nat.leb (Str.ord c) 32.

(** The loop over [_UNSAFE_URL_BYTES_TO_REMOVE]: tab, CR, LF. *)
Definition remove_unsafe_bytes (url : string) : string :=
  Str.replace (Str.chr 10) "" (Str.replace (Str.chr 13) "" (Str.replace (Str.chr 9) "" url)).

(** [_splitnetloc(url, 2)]: the authority runs from index 2 to the first
    of [/], [?], [#]. *)
Definition is_netloc_delim (c : ascii) : bool :=
  Ascii.eqb c "/" || Ascii.eqb c "?" || Ascii.eqb c "#".

Fixpoint until_delim (s : string) : string * string :=
  match s with
  | EmptyString => (EmptyString, EmptyString)
  | String c s' =>
      if is_netloc_delim c then (EmptyString, s)
      else let '(d, rest) := until_delim s' in (String c d, rest)
  end.

Definition splitnetloc (url : string) : string * string := until_delim (Str.drop 2 url).

(** [_check_bracketed_host]: [true] when no [ValueError] is raised.  The
    IPvFuture pattern is [v], hexadecimal digits, a dot, and at least one
    more character. *)
Definition check_bracketed_host (hostname : string) : bool :=
  if Str.startswith "v" hostname then
    match Str.partition "." (Str.drop 1 hostname) with
    | (hex, true, rest) =>
        negb (String.eqb hex "") && Str.all ipaddress.is_hex_digit hex
        && negb (String.eqb rest "")
    | _ => false
    end
  else
    match ipaddress.ip_address hostname with
    | Some ipaddress.V6 => true
    | _ => false
    end.

(** [_check_bracketed_netloc] *)
Definition check_bracketed_netloc (netloc : string) : bool :=
  let hostname_and_port := Str.rpartition_tail "@" netloc in
  match Str.partition "[" hostname_and_port with
  | (before_bracket, true, bracketed) =>
      String.eqb before_bracket ""
      && match Str.partition "]" bracketed with
         | (hostname, _, port) =>
             negb (negb (String.eqb port "") && negb (Str.startswith ":" port))
             && check_bracketed_host hostname
         end
  | (_, false, _) =>
      match Str.partition ":" hostname_and_port with
      | (hostname, _, _) => check_bracketed_host hostname
      end
  end.

Record SplitResult := mkSplit {
  s_scheme : string; s_netloc : string; s_path : string;
  s_query : string; s_fragment : string }.

(** [urlsplit(url)]; [None] stands for a raised [ValueError].
    [_checknetloc] never raises on code points below 256: none of them
    expands under NFKC to a text with one of [/?#@:]. *)
Definition urlsplit (url0 : string) : option SplitResult :=
  let url1 := remove_unsafe_bytes (Str.lstrip WHATWG_C0_CONTROL_OR_SPACE url0) in
  let '(scheme, url2) :=
    match Str.find ":" url1 with
    | Some (S i') =>
        let i := S i' in
        if Str.all Str.is_ascii_alpha (Str.take 1 url1)
           && Str.all scheme_chars (Str.take i url1)
        then (Str.lower (Str.take i url1), Str.drop (S i) url1)
        else (EmptyString, url1)
    | _ => (EmptyString, url1)
    end in
  let with_netloc :=
    if String.eqb (Str.take 2 url2) "//" then
      let '(netloc, rest) := splitnetloc url2 in
      let open_br := Str.has_char "[" netloc in
      let close_br := Str.has_char "]" netloc in
      if (open_br && negb close_br) || (close_br && negb open_br) then None
      else if open_br && close_br && negb (check_bracketed_netloc netloc) then None
      else Some (netloc, rest)
    else Some (EmptyString, url2) in
  match with_netloc with
  | None => None
  | Some (netloc, url3) =>
      let '(url4, fragment) :=
        match Str.partition "#" url3 with (a, _, b) => (a, b) end in
      let '(url5, query) :=
        match Str.partition "?" url4 with (a, _, b) => (a, b) end in
      Some (mkSplit scheme netloc url5 query fragment)
  end.

(** [_splitparams(url)] *)
Definition splitparams (url : string) : string * string :=
  let cut (oi : option nat) :=
    match oi with
    | Some i => (Str.take i url, Str.drop (S i) url)
    | None => (url, EmptyString)
    end in
  match Str.rfind "/" url with
  | Some slash => cut (Str.find_from ";" url slash)
  | None => cut (Str.find ";" url)
  end.

Record ParseResult := mkParse {
  scheme : string; netloc : string; path : string;
  params : string; query : string; fragment : string }.

(** [urlparse(url)] *)
Definition urlparse (url : string) : option ParseResult :=
  match urlsplit url with
  | None => None
  | Some r =>
      let '(url', params) :=
        if Str.in_list (s_scheme r) uses_params && Str.has_char ";" (s_path r)
        then splitparams (s_path r)
        else (s_path r, EmptyString) in
      Some (mkParse (s_scheme r) (s_netloc r) url' params (s_query r) (s_fragment r))
  end.

(** [urlunsplit((scheme, netloc, url, query, fragment))] *)
Definition urlunsplit (scheme netloc url query fragment : string) : string :=
  let url1 :=
    if negb (String.eqb netloc "")
       || (negb (String.eqb scheme "") && Str.in_list scheme uses_netloc
           && negb (String.eqb (Str.take 2 url) "//"))
    then
      let url' :=
        if negb (String.eqb url "") && negb (String.eqb (Str.take 1 url) "/")
        then "/" +:+ url else url in
      "//" +:+ netloc +:+ url'
    else url in
  let url2 := if negb (String.eqb scheme "") then scheme +:+ ":" +:+ url1 else url1 in
  let url3 := if negb (String.eqb query "") then url2 +:+ "?" +:+ query else url2 in
  if negb (String.eqb fragment "") then url3 +:+ "#" +:+ fragment else url3.

(** [urlunparse((scheme, netloc, url, params, query, fragment))] *)
Definition urlunparse (scheme netloc url params query fragment : string) : string :=
  let url' := if negb (String.eqb params "") then url +:+ ";" +:+ params else url in
  urlunsplit scheme netloc url' query fragment.

End urllib_parse.

(* ===================================================================== *)
(** ** [src/utils.py] *)
(* ===================================================================== *)

Import urllib_parse.

(** [normalize_url(url)] with [base_url] left at its default [None], as
    [validate_seed_urls] calls it; [None] is Python's [None]. *)
Definition normalize_url (url : string) : option string :=
  match urlparse (Str.strip url) with
  | None => None                                   (* except Exception *)
  | Some parsed =>
      if negb (Str.in_list (scheme parsed) ["http"; "https"]) then None
      else if String.eqb (netloc parsed) "" then None
      else
        let scheme := Str.lower (scheme parsed) in
        let netloc := Str.lower (netloc parsed) in
        let path := path parsed in
        let query := query parsed in
        let netloc :=
          if Str.contains ":80" netloc && String.eqb scheme "http"
          then Str.replace ":80" "" netloc
          else if Str.contains ":443" netloc && String.eqb scheme "https"
          then Str.replace ":443" "" netloc
          else netloc in
        let path :=
          if Str.endswith path "/" && Nat.ltb 1 (String.length path)
          then Str.rstrip (Ascii.eqb "/") path
          else if String.eqb path "" then "/"
          else path in
        let fragment := "" in
        Some (urlunparse scheme netloc path "" query fragment)
  end.

(** [get_domain_from_url]; [None] when [urlparse] raises. *)
Definition get_domain_from_url (url : string) : option string :=
  match urlparse url with
  | Some parsed => Some (Str.lower (netloc parsed))
  | None => None
  end.

(** [validate_seed_urls] *)
Fixpoint validate_seed_urls (urls : list string) : list string :=
  match urls with
  | [] => []
  | url :: rest =>
      match normalize_url (Str.strip url) with
      | Some normalized =>
          if String.eqb normalized "" then validate_seed_urls rest
          else normalized :: validate_seed_urls rest
      | None => validate_seed_urls rest
      end
  end.

(** [clean_text(text, max_length)]: [re.sub(r'\s+', ' ', text.strip())],
    then the cut with its ellipsis. *)
Fixpoint collapse_ws (s : string) : string :=
  match s with
  | EmptyString => EmptyString
  | String c s' =>
      if Str.isspace c then
        match s' with
        | String c' _ => if Str.isspace c' then collapse_ws s' else String " " (collapse_ws s')
        | EmptyString => String " " EmptyString
        end
      else String c (collapse_ws s')
  end.

Definition clean_text (text : string) (max_length : nat) : string :=
  if String.eqb text "" then ""
  else
    let cleaned := collapse_ws (Str.strip text) in
    if Nat.ltb max_length (String.length cleaned)
    then Str.take max_length cleaned +:+ "..."
    else cleaned.

(* ===================================================================== *)
(** ** [src/config.py] *)
(* ===================================================================== *)

(** [CrawlerConfig].  [crawl_delay] is a float that only drives sleeping
    and is left out. *)
Record CrawlerConfig := mkConfig {
  urls_file : string;
  database_path : string;
  max_depth : Z;
  request_timeout : Z;
  max_urls_per_domain : Z;
  user_agent : string;
  verify_ssl : bool;
  max_redirects : Z;
  respect_robots_txt : bool;
  robots_cache_duration : Z;
  allowed_extensions : gset string;
  blocked_extensions : gset string;
  allowed_protocols : gset string }.

(** The defaults of the dataclass together with [__post_init__]. *)
Definition default_allowed_extensions : gset string :=
  list_to_set [".html"; ".htm"; ".php"; ".asp"; ".aspx"; ".jsp"; ".py"; ".rb"; ".pl"; ""].

Definition default_blocked_extensions : gset string :=
  list_to_set
    [".pdf"; ".doc"; ".docx"; ".xls"; ".xlsx"; ".ppt"; ".pptx";
     ".zip"; ".rar"; ".7z"; ".tar"; ".gz";
     ".jpg"; ".jpeg"; ".png"; ".gif"; ".bmp"; ".svg"; ".ico";
     ".mp3"; ".mp4"; ".wav"; ".avi"; ".mov"; ".wmv";
     ".exe"; ".msi"; ".deb"; ".rpm"; ".dmg"].

Definition default_config : CrawlerConfig := {|
  urls_file := "urls.txt";
  database_path := "crawler.db";
  max_depth := 2;
  request_timeout := 10;
  max_urls_per_domain := 50;
  user_agent := "Mozilla/5.0 (compatible; ParallelCrawler/1.0)";
  verify_ssl := false;
  max_redirects := 5;
  respect_robots_txt := true;
  robots_cache_duration := 3600;
  allowed_extensions := default_allowed_extensions;
  blocked_extensions := default_blocked_extensions;
  allowed_protocols := list_to_set ["http"; "https"] |}.

(** [any(path.endswith(ext) for ext in exts)] over a set of extensions. *)
Definition endswith_any (path : string) (exts : gset string) : bool :=
  existsb (Str.endswith path) (elements exts).

(** [os.path.basename(path)] *)
Definition basename (path : string) : string := Str.rpartition_tail "/" path.

(** [CrawlerConfig.is_url_allowed] *)
Definition is_url_allowed (self : CrawlerConfig) (url : string) : bool :=
  match urlparse (Str.lower url) with
  | None => false                                  (* except Exception *)
  | Some parsed =>
      if negb (bool_decide (scheme parsed ∈ allowed_protocols self)) then false
      else
        let path := Str.lower (path parsed) in
        if endswith_any path (blocked_extensions self) then false
        else if negb (bool_decide (allowed_extensions self = ∅))
                && negb (endswith_any path (allowed_extensions self))
                && Str.has_char "." (basename path)
        then false
        else true
  end.

(* ===================================================================== *)
(** ** [src/crawler_core.py] *)
(* ===================================================================== *)

(** A [RobotFileParser] after a successful [read()]: its verdict for a
    user-agent token and a URL. *)
Record RobotFileParser := mkRobots { can_fetch : string -> string -> bool }.

(** What [except requests.exceptions.RequestException] and the following
    [except Exception] tell apart; the argument is [str(e)]. *)
Inductive exception :=
| RequestException (msg : string)
| OtherException (msg : string).

(** The response of [session.get] as far as [crawl_url] looks at it:
    - [status_code] and the text of the [HTTPError] that
      [raise_for_status()] raises for it;
    - [content_length] is [len(response.content)];
    - [content_type] is [response.headers.get('content-type')];
    - [soup_title] is the outcome of [BeautifulSoup(content, 'html.parser')]
      followed by [soup.find('title')] and [get_text()]: an exception, no
      title tag, or the tag's text;
    - [extracted_links] is [extract_links_from_html(response.text, url)] in
      the iteration order of the set, [None] when that step raises. *)
Record Response := mkResponse {
  status_code : Z;
  http_error : string;
  content_length : Z;
  content_type : option string;
  soup_title : exception + option string;
  extracted_links : option (list string) }.

Inductive Fetched :=
| Raises (e : exception)
| Responds (r : Response).

(** The network as one call of [crawl_url] meets it: [robots_read origin]
    is the outcome of [rp.set_url(urljoin(origin, '/robots.txt'))] and
    [rp.read()] ([None] when it raises), [session_get url] that of the GET. *)
Record World := mkWorld {
  robots_read : string -> option RobotFileParser;
  session_get : string -> Fetched }.

(** The result dictionary; the float fields [response_time] and [timestamp]
    are left out.  [links] lists the set in its iteration order. *)
Record CrawlResult := mkResult {
  r_url : string;
  r_title : string;
  r_content_length : Z;
  r_status : string;
  r_depth : Z;
  r_domain : option string;
  r_error_message : option string;
  r_links : list string }.

Definition set_status (st : string) (r : CrawlResult) : CrawlResult :=
  mkResult (r_url r) (r_title r) (r_content_length r) st (r_depth r) (r_domain r)
           (r_error_message r) (r_links r).

Definition set_error_message (msg : string) (r : CrawlResult) : CrawlResult :=
  mkResult (r_url r) (r_title r) (r_content_length r) (r_status r) (r_depth r)
           (r_domain r) (Some msg) (r_links r).

Definition set_content_length (n : Z) (r : CrawlResult) : CrawlResult :=
  mkResult (r_url r) (r_title r) n (r_status r) (r_depth r) (r_domain r)
           (r_error_message r) (r_links r).

Definition set_title (t : string) (r : CrawlResult) : CrawlResult :=
  mkResult (r_url r) t (r_content_length r) (r_status r) (r_depth r) (r_domain r)
           (r_error_message r) (r_links r).

Definition set_links (l : list string) (r : CrawlResult) : CrawlResult :=
  mkResult (r_url r) (r_title r) (r_content_length r) (r_status r) (r_depth r)
           (r_domain r) (r_error_message r) l.

(** [CrawlerCore._is_robots_allowed]: the verdict and the cache after the
    call.  Every exception inside ends in the handler that answers [True]. *)
Definition _is_robots_allowed (config : CrawlerConfig) (world : World)
    (robots_cache : gmap string (option RobotFileParser)) (url : string)
  : bool * gmap string (option RobotFileParser) :=
  match urlparse url with
  | None => (true, robots_cache)
  | Some parsed =>
      let domain := scheme parsed +:+ "://" +:+ netloc parsed in
      let consult (cache : gmap string (option RobotFileParser))
                  (robots_parser : option RobotFileParser) :=
        match robots_parser with
        | None => (true, cache)
        | Some rp =>
            match Str.split_ws (user_agent config) with
            | token :: _ => (can_fetch rp token url, cache)
            | [] => (true, cache)              (* IndexError, caught *)
            end
        end in
      match robots_cache !! domain with
      | Some robots_parser => consult robots_cache robots_parser
      | None =>
          match robots_read world domain with
          | Some rp => consult (<[domain := Some rp]> robots_cache) (Some rp)
          | None => (true, <[domain := None]> robots_cache)
          end
      end
  end.

(** The title of an HTML page: the cleaned text of its [title] tag, or the
    literal used when [soup.find('title')] finds none. *)
Definition html_title (text : option string) : string :=
  match text with
  | Some t => clean_text t 200
  | None => "No Title Found"
  end.

(** The loop that keeps the extracted links the configuration allows; the
    handler around it leaves the empty set when extraction raises. *)
Definition valid_links (config : CrawlerConfig) (discovered : option (list string))
  : list string :=
  match discovered with
  | Some ls => List.filter (is_url_allowed config) ls
  | None => []
  end.

(** [CrawlerCore.crawl_url]: the result and the robots cache after the
    call.  [_enforce_rate_limit] only sleeps and records a time; it leaves
    the result untouched and is not modelled. *)
Definition crawl_url (config : CrawlerConfig) (world : World)
    (robots_cache : gmap string (option RobotFileParser)) (url : string) (depth : Z)
  : CrawlResult * gmap string (option RobotFileParser) :=
  let domain := get_domain_from_url url in
  let result := mkResult url "" 0 "error" depth domain None [] in
  if negb (is_url_allowed config url) then
    (set_status "blocked" (set_error_message "URL blocked by configuration" result),
     robots_cache)
  else
    let '(robots_ok, cache) :=
      if respect_robots_txt config
      then _is_robots_allowed config world robots_cache url
      else (true, robots_cache) in
    if negb robots_ok then
      (set_status "robots_blocked" (set_error_message "Blocked by robots.txt" result), cache)
    else
      let request_error msg r :=
        set_status "request_error" (set_error_message ("Request error: " +:+ msg) r) in
      let parse_error msg r :=
        set_status "parse_error" (set_error_message ("Parsing error: " +:+ msg) r) in
      match session_get world url with
      | Raises (RequestException msg) => (request_error msg result, cache)
      | Raises (OtherException msg) => (parse_error msg result, cache)
      | Responds response =>
          if (400 <=? status_code response) && (status_code response <? 600) then
            (request_error (http_error response) result, cache)
          else
            let result := set_content_length (content_length response) result in
            let ctype := match content_type response with Some c => c | None => "" end in
            if Str.contains "text/html" (Str.lower ctype) then
              match soup_title response with
              | inl (RequestException msg) => (request_error msg result, cache)
              | inl (OtherException msg) => (parse_error msg result, cache)
              | inr title_tag =>
                  let result := set_title (html_title title_tag) result in
                  let result :=
                    if depth <? max_depth config
                    then set_links (valid_links config (extracted_links response)) result
                    else result in
                  (set_status "success" result, cache)
              end
            else
              let shown := match content_type response with Some c => c | None => "unknown" end in
              let result := set_title ("Non-HTML content (" +:+ shown +:+ ")") result in
              (set_status "success" result, cache)
      end.

(** [CrawlerCore.validate_url] *)
Definition validate_url (config : CrawlerConfig) (url : string) : bool :=
  match urlparse url with
  | None => false                                  (* except Exception *)
  | Some parsed =>
      if String.eqb (scheme parsed) "" || String.eqb (netloc parsed) "" then false
      else if negb (bool_decide (scheme parsed ∈ allowed_protocols config)) then false
      else if negb (is_url_allowed config url) then false
      else true
  end.

(** [is_robots_allowed(url, robots_cache, user_agent)] of [src/utils.py],
    the free-standing twin of the method above: the user agent is passed
    whole. *)
Definition is_robots_allowed (w : World) (url : string)
    (robots_cache : gmap string (option RobotFileParser)) (agent : string)
  : bool * gmap string (option RobotFileParser) :=
  match urlparse url with
  | None => (true, robots_cache)
  | Some parsed =>
      let domain := scheme parsed +:+ "://" +:+ netloc parsed in
      match robots_cache !! domain with
      | Some None => (true, robots_cache)
      | Some (Some rp) => (can_fetch rp agent url, robots_cache)
      | None =>
          match robots_read w domain with
          | Some rp => (can_fetch rp agent url, <[domain := Some rp]> robots_cache)
          | None => (true, <[domain := None]> robots_cache)
          end
      end
  end.

(* ===================================================================== *)
(** ** [src/database_manager.py] *)
(* ===================================================================== *)

(** A row of [discovered_links]; [discovered_at] is filled by the store. *)
Record LinkRow := mkLinkRow {
  link_id : Z;
  source_url : string;
  target_url : string;
  link_depth : Z }.

(** The two tables with the counters behind [AUTOINCREMENT]. *)
Record Database := mkDatabase {
  crawled_urls : list (Z * CrawlResult);
  crawled_seq : Z;
  discovered_links : list LinkRow;
  links_seq : Z }.

(** After [_init_database] on a fresh file. *)
Definition empty_database : Database := mkDatabase [] 0 [] 0.

Definition is_null {A} (v : option A) : bool :=
  match v with Some _ => false | None => true end.

(** The constraints that [CREATE TABLE discovered_links] declares, checked
    on the values bound to an [INSERT] ([None] is SQL [NULL]): [NOT NULL]
    on the three columns, and the primary key [id], which the store assigns
    fresh.  The schema has no [UNIQUE] constraint over
    [(source_url, target_url)], and the connection never turns foreign-key
    enforcement on. *)
Definition violates_link_constraints
    (source target : option string) (depth : option Z) (new_id : Z)
    (rows : list LinkRow) : bool :=
  is_null source || is_null target || is_null depth
  || existsb (fun row => link_id row =? new_id) rows.

(** [INSERT OR IGNORE INTO discovered_links (source_url, target_url, depth)
    VALUES (?, ?, ?)]: the row is skipped when it violates a constraint. *)
Definition insert_or_ignore_link
    (source target : option string) (depth : option Z) (db : Database) : Database :=
  let new_id := links_seq db + 1 in
  match source, target, depth with
  | Some s, Some t, Some d =>
      if violates_link_constraints source target depth new_id (discovered_links db)
      then db
      else mkDatabase (crawled_urls db) (crawled_seq db)
                      (discovered_links db ++ [mkLinkRow new_id s t d]) new_id
  | _, _, _ => db
  end.

(** [DatabaseManager.insert_discovered_links]: one statement per target,
    then the commit. *)
Definition insert_discovered_links
    (source_url : string) (target_urls : list string) (depth : Z) (db : Database)
  : Database :=
  fold_left
    (fun db target_url => insert_or_ignore_link (Some source_url) (Some target_url) (Some depth) db)
    target_urls db.

(** [DatabaseManager.insert_crawl_result]: [INSERT OR REPLACE] on the
    [UNIQUE] column [url] removes the row it conflicts with. *)
Definition insert_crawl_result (result : CrawlResult) (db : Database) : Database :=
  let new_id := crawled_seq db + 1 in
  let kept :=
    List.filter (fun row => negb (String.eqb (r_url (snd row)) (r_url result)))
                (crawled_urls db) in
  mkDatabase (kept ++ [(new_id, result)]) new_id (discovered_links db) (links_seq db).

(** Rows of [discovered_links] for one pair. *)
Definition link_rows_for (source target : string) (db : Database) : list LinkRow :=
  List.filter
    (fun row => String.eqb (source_url row) source && String.eqb (target_url row) target)
    (discovered_links db).


(** [SELECT key, COUNT( * ) ... GROUP BY key], read into a dictionary. *)
Definition count_by {K} `{Countable K} (key : CrawlResult -> K)
    (rows : list (Z * CrawlResult)) : gmap K Z :=
  fold_right
    (fun row counts => <[key (snd row) := default 0 (counts !! key (snd row)) + 1]> counts)
    ∅ rows.

(** The dictionary of [DatabaseManager.get_crawl_stats].  [top_domains] is
    left out: which ten domains [ORDER BY count DESC LIMIT 10] keeps among
    equal counts is not determined by the query. *)
Record CrawlStats := mkStats {
  total_crawled : Z;
  status_counts : gmap string Z;
  depth_counts : gmap Z Z;
  total_links_discovered : Z }.

Definition get_crawl_stats (db : Database) : CrawlStats :=
  mkStats (Z.of_nat (length (crawled_urls db)))
          (count_by r_status (crawled_urls db))
          (count_by r_depth (crawled_urls db))
          (Z.of_nat (length (discovered_links db))).

(* ===================================================================== *)
(** ** [src/mpi_coordinator.py] *)
(* ===================================================================== *)

(** [WorkItem]; its [timestamp] is never read. *)
Record WorkItem := mkWorkItem { item_url : string; item_depth : Z }.

(** The master's data structures of [MPICoordinator.__init__]. *)
Record Master := mkMaster {
  visited_urls : gset string;
  work_queue : list WorkItem;
  active_workers : gset Z;
  domain_counts : gmap string Z;
  total_processed : Z }.

Definition initial_master : Master := mkMaster ∅ [] ∅ ∅ 0.

(** Reading [domain_counts[domain]] on a [defaultdict(int)]: the value, and
    the dictionary, in which a missing key now holds 0. *)
Definition defaultdict_get (domain : string) (counts : gmap string Z) : Z * gmap string Z :=
  match counts !! domain with
  | Some n => (n, counts)
  | None => (0, <[domain := 0]> counts)
  end.

Definition set_domain_counts (counts : gmap string Z) (m : Master) : Master :=
  mkMaster (visited_urls m) (work_queue m) (active_workers m) counts (total_processed m).

(** The last three statements of the loop body of [_filter_and_add_links]. *)
Definition add_to_work_queue (link : string) (depth : Z) (m : Master) : Master :=
  mkMaster ({[link]} ∪ visited_urls m) (work_queue m ++ [mkWorkItem link depth])
           (active_workers m) (domain_counts m) (total_processed m).

(** [MPICoordinator._filter_and_add_links]: [links] in the iteration order
    of the set; [new_links] accumulates the newly added URLs. *)
Fixpoint filter_and_add_links_from (config : CrawlerConfig) (links : list string)
    (depth : Z) (m : Master) (new_links : list string) : Master * list string :=
  match links with
  | [] => (m, new_links)
  | link :: rest =>
      if bool_decide (link ∈ visited_urls m) then
        filter_and_add_links_from config rest depth m new_links
      else
        let '(over_limit, m1) :=
          match get_domain_from_url link with
          | Some domain =>
              if String.eqb domain "" then (false, m)
              else
                let '(count, counts) := defaultdict_get domain (domain_counts m) in
                (max_urls_per_domain config <=? count, set_domain_counts counts m)
          | None => (false, m)
          end in
        if over_limit then filter_and_add_links_from config rest depth m1 new_links
        else if negb (is_url_allowed config link) then
          filter_and_add_links_from config rest depth m1 new_links
        else
          filter_and_add_links_from config rest depth (add_to_work_queue link depth m1)
                                    (new_links ++ [link])
  end.

Definition _filter_and_add_links (config : CrawlerConfig) (links : list string)
    (depth : Z) (m : Master) : Master * list string :=
  filter_and_add_links_from config links depth m [].

(** [list(s)] for a Python set [s] of strings: its elements in the
    iteration order of the set, which CPython derives from the hashes of
    the elements and the history of the table, not from the order of the
    [add] calls.  The order is left to the run: the elements come out by
    increasing [rank], elements of equal rank in the order given.  Every
    order of a set is the one of some ranking ([list_of_set_any_order]). *)
Fixpoint place (rank : string -> Z) (x : string) (l : list string) : list string :=
  match l with
  | [] => [x]
  | y :: rest => if rank x <=? rank y then x :: l else y :: place rank x rest
  end.

Definition list_of_set (rank : string -> Z) (elements : list string) : list string :=
  fold_right (place rank) [] elements.

(** [MPICoordinator._process_result]; [rank] gives the iteration order of
    the set [new_links] in [list(new_links)]. *)
Definition _process_result (config : CrawlerConfig) (rank : string -> Z)
    (result : CrawlResult) (m : Master) (db : Database) : Master * Database :=
  let m := mkMaster (visited_urls m) (work_queue m) (active_workers m)
                    (domain_counts m) (total_processed m + 1) in
  let db := insert_crawl_result result db in
  let url := r_url result in
  let depth := r_depth result in
  let '(m, db) :=
    if String.eqb (r_status result) "success" then
      let links := r_links result in
      match links with
      | _ :: _ =>
          if depth <? max_depth config then
            let '(m', new_links) := _filter_and_add_links config links (depth + 1) m in
            match new_links with
            | _ :: _ =>
                (m', insert_discovered_links url (list_of_set rank new_links) (depth + 1) db)
            | [] => (m', db)
            end
          else (m, db)
      | [] => (m, db)
      end
    else (m, db) in
  match r_domain result with
  | Some domain =>
      if String.eqb domain "" then (m, db)
      else
        let '(count, counts) := defaultdict_get domain (domain_counts m) in
        (set_domain_counts (<[domain := count + 1]> counts) m, db)
  | None => (m, db)
  end.

(** [MPICoordinator._load_seed_urls] on the lines of the seed file. *)
Definition _load_seed_urls (lines : list string) : list string :=
  validate_seed_urls
    (List.filter (fun line => negb (String.eqb line "")) (map Str.strip lines)).

(** The first loop of [run_master]: seed URLs enter the queue at depth 0. *)
Fixpoint seed_work_queue (seed_urls : list string) (m : Master) : Master :=
  match seed_urls with
  | [] => m
  | url :: rest =>
      if bool_decide (url ∈ visited_urls m) then seed_work_queue rest m
      else seed_work_queue rest
             (mkMaster ({[url]} ∪ visited_urls m) (work_queue m ++ [mkWorkItem url 0])
                       (active_workers m) (domain_counts m) (total_processed m))
  end.

(** The master together with what surrounds it in a run:
    - [db], the store behind [db_manager];
    - [urls_sent] and [results_received], the counters of [run_master];
    - [outbox], every [comm.send] of the master, oldest first ([None] is the
      termination signal);
    - [in_flight], the jobs sent to a worker and not yet answered;
    - [worker_caches], the robots cache of each worker's [CrawlerCore]. *)
Record System := mkSystem {
  master : Master;
  db : Database;
  urls_sent : Z;
  results_received : Z;
  outbox : list (Z * option WorkItem);
  in_flight : list (Z * WorkItem);
  worker_caches : gmap Z (gmap string (option RobotFileParser)) }.

Definition initial_system : System :=
  mkSystem initial_master empty_database 0 0 [] [] ∅.

(** [work_queue.popleft()] followed by [comm.send(work_item, dest=rank)]
    and [urls_sent += 1]; [activate] tells whether the caller also adds
    the rank to [active_workers]. *)
Definition send_next (worker_rank : Z) (activate : bool) (sys : System) : System :=
  match work_queue (master sys) with
  | [] => sys
  | work_item :: queue =>
      let m := master sys in
      let active := if activate then {[worker_rank]} ∪ active_workers m else active_workers m in
      mkSystem (mkMaster (visited_urls m) queue active (domain_counts m) (total_processed m))
               (db sys) (urls_sent sys + 1) (results_received sys)
               (outbox sys ++ [(worker_rank, Some work_item)])
               (in_flight sys ++ [(worker_rank, work_item)])
               (worker_caches sys)
  end.

(** [range(lo, hi)] *)
Definition range (lo hi : Z) : list Z :=
  map (fun k => lo + Z.of_nat k) (seq 0 (Z.to_nat (hi - lo))).

(** The initial work distribution. *)
Definition initial_distribution (size : Z) (sys : System) : System :=
  fold_left (fun sys worker_rank => send_next worker_rank true sys)
            (range 1 (Z.min size (Z.of_nat (length (work_queue (master sys))) + 1)))
            sys.

(** [_terminate_all_workers] *)
Definition _terminate_all_workers (size : Z) (sys : System) : System :=
  mkSystem (master sys) (db sys) (urls_sent sys) (results_received sys)
           (outbox sys ++ map (fun worker_rank => (worker_rank, None)) (range 1 size))
           (in_flight sys) (worker_caches sys).

(** The guard of the main coordination loop. *)
Definition loop_guard (sys : System) : bool :=
  (results_received sys <? urls_sent sys)
  || match work_queue (master sys) with [] => false | _ :: _ => true end.

(** One arrival at [comm.recv(source=MPI.ANY_SOURCE)]: which of the jobs
    in flight is answered next, the network its worker met, and the
    iteration order of the set [new_links] when the master processes the
    result. *)
Record Arrival := mkArrival {
  answered : nat;
  world : World;
  iteration_rank : string -> Z }.

Definition remove_nth {A} (n : nat) (l : list A) : list A := firstn n l ++ skipn (S n) l.

(** [run_worker] on one work item: [crawl_url], and the result sent back. *)
Definition worker_crawl (config : CrawlerConfig) (w : World) (worker_rank : Z)
    (work_item : WorkItem) (sys : System) : CrawlResult * System :=
  let cache := default ∅ (worker_caches sys !! worker_rank) in
  let '(result, cache') := crawl_url config w cache (item_url work_item) (item_depth work_item) in
  (result,
   mkSystem (master sys) (db sys) (urls_sent sys) (results_received sys) (outbox sys)
            (in_flight sys) (<[worker_rank := cache']> (worker_caches sys))).

(** The body of the main loop for a received [result] from [worker_rank]. *)
Definition master_receive (config : CrawlerConfig) (rank : string -> Z) (worker_rank : Z)
    (result : CrawlResult) (sys : System) : System :=
  let '(m, db') := _process_result config rank result (master sys) (db sys) in
  let sys := mkSystem m db' (urls_sent sys) (results_received sys + 1) (outbox sys)
                      (in_flight sys) (worker_caches sys) in
  match work_queue m with
  | _ :: _ => send_next worker_rank false sys
  | [] =>
      (* [active_workers.discard(worker_rank)]; the send guarded by
         [worker_rank in self.active_workers] can then never run. *)
      let active := active_workers m ∖ {[worker_rank]} in
      let sys :=
        mkSystem (mkMaster (visited_urls m) (work_queue m) active (domain_counts m)
                           (total_processed m))
                 db' (urls_sent sys) (results_received sys) (outbox sys)
                 (in_flight sys) (worker_caches sys) in
      if bool_decide (worker_rank ∈ active)
      then mkSystem (master sys) (db sys) (urls_sent sys) (results_received sys)
                    (outbox sys ++ [(worker_rank, None)]) (in_flight sys) (worker_caches sys)
      else sys
  end.

(** One iteration of the main loop, driven by an arrival. *)
Definition main_loop_iteration (config : CrawlerConfig) (a : Arrival) (sys : System)
  : System :=
  match nth_error (in_flight sys) (answered a) with
  | None => sys
  | Some (worker_rank, work_item) =>
      let sys := mkSystem (master sys) (db sys) (urls_sent sys) (results_received sys)
                          (outbox sys) (remove_nth (answered a) (in_flight sys))
                          (worker_caches sys) in
      let '(result, sys) := worker_crawl config (world a) worker_rank work_item sys in
      master_receive config (iteration_rank a) worker_rank result sys
  end.

(** The main loop over the arrivals observed so far: it stops when its
    guard fails. *)
Fixpoint main_loop (config : CrawlerConfig) (arrivals : list Arrival) (sys : System)
  : System :=
  match arrivals with
  | [] => sys
  | a :: rest =>
      if loop_guard sys then main_loop config rest (main_loop_iteration config a sys)
      else sys
  end.

(** [MPICoordinator.run_master]: the state of the run once the given
    arrivals have been processed; the workers are terminated when the main
    loop has ended. *)
Definition run_master (config : CrawlerConfig) (size : Z) (lines : list string)
    (arrivals : list Arrival) : System :=
  match _load_seed_urls lines with
  | [] => _terminate_all_workers size initial_system
  | seed_urls =>
      let m := seed_work_queue seed_urls initial_master in
      let sys := mkSystem m empty_database 0 0 [] [] ∅ in
      let sys := initial_distribution size sys in
      let sys := main_loop config arrivals sys in
      if loop_guard sys then sys else _terminate_all_workers size sys
  end.

(** The work items sent to workers, oldest first. *)
Definition dispatched (sys : System) : list WorkItem :=
  omap snd (outbox sys).

(* ===================================================================== *)
(** * Vocabulary of the properties *)
(* ===================================================================== *)

(** ** Frontier and runs *)

(** Every work item ever appended to the queue: those sent to workers,
    then those still queued. *)
Definition enqueued (sys : System) : list WorkItem :=
  dispatched sys ++ work_queue (master sys).

(** What a pass over discovered links does to the master: it appends
    work items, all at the given depth, for URLs that were not visited,
    each once, and marks exactly those visited. *)
Definition extends_by (depth : Z) (added : list string) (m m' : Master) : Prop :=
  work_queue m' = work_queue m ++ map (fun u => mkWorkItem u depth) added
  /\ visited_urls m' = list_to_set added ∪ visited_urls m
  /\ NoDup added
  /\ (forall u, u ∈ added -> u ∉ visited_urls m).

(** How a step of the run changes the frontier: work items are appended
    for fresh URLs, nothing enqueued is lost, and a job in flight was in
    flight before or has been enqueued. *)
Definition grows (depth : Z) (added : list string) (sys sys' : System) : Prop :=
  enqueued sys' = enqueued sys ++ map (fun u => mkWorkItem u depth) added
  /\ visited_urls (master sys') = list_to_set added ∪ visited_urls (master sys)
  /\ NoDup added
  /\ (forall u, u ∈ added -> u ∉ visited_urls (master sys))
  /\ (forall x, x ∈ in_flight sys' -> x ∈ in_flight sys \/ snd x ∈ enqueued sys').

(** The states of a run, as far as the frontier goes: from the initial
    state, each step appends work items for fresh URLs, either seeds at
    depth 0 or links one level below a job in flight that is itself below
    the maximum depth. *)
Inductive reachable (config : CrawlerConfig) : System -> Prop :=
| reach_initial : reachable config initial_system
| reach_grows sys sys' depth added :
    reachable config sys ->
    grows depth added sys sys' ->
    (added <> [] ->
     depth = 0
     \/ exists worker_rank work_item,
         (worker_rank, work_item) ∈ in_flight sys
         /\ depth = item_depth work_item + 1
         /\ item_depth work_item < max_depth config) ->
    reachable config sys'.

(** No URL is enqueued twice, and what is enqueued is marked visited. *)
Definition frontier_invariant (sys : System) : Prop :=
  NoDup (map item_url (enqueued sys))
  /\ (forall w, w ∈ enqueued sys -> item_url w ∈ visited_urls (master sys)).

(** Depths stay within the bound. *)
Definition depth_bounded (config : CrawlerConfig) (w : WorkItem) : Prop :=
  0 <= item_depth w <= max_depth config.

Definition depth_invariant (config : CrawlerConfig) (sys : System) : Prop :=
  (forall w, w ∈ enqueued sys -> depth_bounded config w)
  /\ (forall x, x ∈ in_flight sys -> depth_bounded config (snd x)).

(** The state of a run before the final termination signals: the seeds
    loaded and distributed, then the main loop over the arrivals. *)
Definition seeded (lines : list string) : System :=
  mkSystem (seed_work_queue (_load_seed_urls lines) initial_master)
           empty_database 0 0 [] [] ∅.

Definition in_progress (config : CrawlerConfig) (size : Z) (lines : list string)
    (arrivals : list Arrival) : System :=
  main_loop config arrivals (initial_distribution size (seeded lines)).

(** The number of workers that receive a job in the initial distribution. *)
Definition initial_workers (size : Z) (lines : list string) : Z :=
  Z.min (size - 1) (Z.of_nat (length (work_queue (master (seeded lines))))).

(** The bookkeeping of the master: the counters agree with the messages,
    each worker holds at most one job, [active_workers] is the set of
    workers holding one, every message so far is a job for one of the
    first [n] workers, and pending work implies a job in flight. *)
Record coordinated (n : Z) (sys : System) : Prop := mkCoordinated {
  sent_counted : urls_sent sys = Z.of_nat (length (dispatched sys));
  results_counted : results_received sys + Z.of_nat (length (in_flight sys)) = urls_sent sys;
  processed_counted : total_processed (master sys) = results_received sys;
  one_job_each : NoDup (map fst (in_flight sys));
  active_in_flight : active_workers (master sys) = list_to_set (map fst (in_flight sys));
  only_jobs : Forall (fun msg => is_Some (snd msg) /\ 1 <= fst msg <= n) (outbox sys);
  in_flight_ranks : Forall (fun x => 1 <= fst x <= n) (in_flight sys);
  busy_while_pending : work_queue (master sys) <> [] -> in_flight sys <> [] }.




(** ** Statuses, titles, long URLs *)

(** The statuses of the error taxonomy. *)
Definition taxonomy : list string :=
  ["success"; "blocked"; "robots_blocked"; "request_error"; "parse_error"].

(** [s * n] *)
Fixpoint times (s : string) (n : nat) : string :=
  match n with
  | O => EmptyString
  | S k => s +:+ times s k
  end.

(** A text is whitespace-collapsed when its only whitespace characters are
    single spaces: no other whitespace character, no two in a row. *)
Fixpoint collapsed (s : string) : bool :=
  match s with
  | EmptyString => true
  | String c s' =>
      (negb (Str.isspace c)
       || (Ascii.eqb c " "
           && match s' with
              | String c' _ => negb (Str.isspace c')
              | EmptyString => true
              end))
      && collapsed s'
  end.

(** [http://a.test/] followed by [n] letters [a]. *)
Definition long_url (n : nat) : string := "http://a.test/" +:+ times "a" n.

(** ** Sample configurations and networks *)

(** A policy that forbids everything, cached for the origin of
    [http://b.test/private]. *)
Definition deny_all : RobotFileParser := mkRobots (fun _ _ => false).

Definition cache_denying_b : gmap string (option RobotFileParser) :=
  {[ "http://b.test" := Some deny_all ]}.

Definition blank_agent_config : CrawlerConfig :=
  mkConfig "urls.txt" "crawler.db" 2 10 50 "   " false 5 true 3600
           default_allowed_extensions default_blocked_extensions
           (list_to_set ["http"; "https"]).

Definition no_network : World :=
  mkWorld (fun _ => None) (fun _ => Raises (RequestException "unreachable")).

(** A page that answers every GET, with the given title and links. *)
Definition html_page (title : string) (links : list string) : Fetched :=
  Responds (mkResponse 200 "" 100 (Some "text/html; charset=utf-8")
                       (inr (Some title)) (Some links)).

(** [http://c.test/] links to three pages of its own site; no
    [robots.txt] can be fetched. *)
Definition c_test_world : World :=
  mkWorld (fun _ => None)
          (fun url =>
             if String.eqb url "http://c.test/"
             then html_page "C" ["http://c.test/a"; "http://c.test/b"; "http://c.test/c"]
             else html_page "leaf" []).

Definition c_test_arrival : Arrival := mkArrival 0 c_test_world (fun _ => 0).

(** The default configuration with [max_urls_per_domain = 2]. *)
Definition quota_config : CrawlerConfig :=
  mkConfig "urls.txt" "crawler.db" 2 10 2 "Mozilla/5.0 (compatible; ParallelCrawler/1.0)"
           false 5 true 3600 default_allowed_extensions default_blocked_extensions
           (list_to_set ["http"; "https"]).

(** A page whose title is the letter [a] 201 times. *)
Definition long_title_world : World :=
  mkWorld (fun _ => None) (fun _ => html_page (times "a" 201) []).

(** A page whose title needs cleaning. *)
Definition short_title_response : Response :=
  mkResponse 200 "" 100 (Some "text/html; charset=utf-8")
             (inr (Some "  Hello
   world ")) (Some []).

Definition short_title_world : World :=
  mkWorld (fun _ => None) (fun _ => Responds short_title_response).

(** ** Vocabulary of the further properties *)

(** The position of [x] in [l], from 0; the length of [l] when [x] is not
    in it. *)
Fixpoint position (x : string) (l : list string) : Z :=
  match l with
  | [] => 0
  | y :: rest => if String.eqb x y then 0 else 1 + position x rest
  end.

(** The quota test of [_filter_and_add_links] on the counts of [m]. *)
Definition under_quota (config : CrawlerConfig) (m : Master) (link : string) : Prop :=
  match get_domain_from_url link with
  | Some domain =>
      (domain = "") \/ (default 0 (domain_counts m !! domain) < max_urls_per_domain config)
  | None => True
  end.




(** The sum of the counts of a [GROUP BY] dictionary. *)
Definition sum_counts {K} `{Countable K} (counts : gmap K Z) : Z :=
  map_fold (fun _ n acc => n + acc) 0 counts.

(** The default configuration with [respect_robots_txt] switched off. *)
Definition no_robots_config : CrawlerConfig :=
  mkConfig "urls.txt" "crawler.db" 2 10 50 "Mozilla/5.0 (compatible; ParallelCrawler/1.0)"
           false 5 false 3600 default_allowed_extensions default_blocked_extensions
           (list_to_set ["http"; "https"]).

(** The origin under which a URL's robots policy is cached. *)
Definition origin (parsed : ParseResult) : string :=
  scheme parsed +:+ "://" +:+ netloc parsed.


(** The first character, when there is one, is not whitespace. *)
Definition starts_clean (s : string) : bool :=
  match s with
  | EmptyString => true
  | String c _ => negb (Str.isspace c)
  end.

(** The last character, when there is one, is not whitespace. *)
Fixpoint ends_clean (s : string) : bool :=
  match s with
  | EmptyString => true
  | String c EmptyString => negb (Str.isspace c)
  | String _ t => ends_clean t
  end.

(* ===================================================================== *)
(** * Properties *)
(* ===================================================================== *)

(** ** URL normalisation *)

(** C4. [normalize_url] is meant to be idempotent, and is not: a path made
    of slashes only is stripped to the empty path, which the branch for an
    empty path can no longer turn into [/]; a second pass then adds the
    slash.  At ["http://a.com//"] the first pass gives ["http://a.com"] and
    the second ["http://a.com/"]. *)
Theorem normalize_url_twice_differs :
  normalize_url "http://a.com//" = Some "http://a.com"
  /\ normalize_url "http://a.com" = Some "http://a.com/"
  /\ (normalize_url "http://a.com//" ≫= normalize_url) <> normalize_url "http://a.com//".
Proof.
  assert (H1 : normalize_url "http://a.com//" = Some "http://a.com") by (vm_compute; reflexivity).
  assert (H2 : normalize_url "http://a.com" = Some "http://a.com/") by (vm_compute; reflexivity).
  repeat split; try assumption.
  rewrite H1. simpl. rewrite H2. discriminate.
Qed.

(** C5. The default port is removed, but by deleting the text [:80] (or
    [:443]) wherever it occurs in the authority: the ports 8080 and 4430
    lose their first digits and the colon, so host and port are not
    preserved. *)
Theorem normalize_url_mangles_other_ports :
  normalize_url "http://example.com:80/" = Some "http://example.com/"
  /\ normalize_url "https://example.com:443/" = Some "https://example.com/"
  /\ normalize_url "http://example.com:8080/" = Some "http://example.com80/"
  /\ normalize_url "https://example.com:4430/" = Some "https://example.com0/".
Proof. repeat split; vm_compute; reflexivity. Qed.

(** ** The result store *)

(** C9. [INSERT OR IGNORE] skips a row only when a constraint is violated,
    and the table declares none over [(source_url, target_url)]: inserting
    the same edge twice leaves two rows for the pair. *)
Theorem duplicate_link_rows_are_kept :
  let db1 := insert_discovered_links "http://a.test/" ["http://a.test/x"] 1 empty_database in
  let db2 := insert_discovered_links "http://a.test/" ["http://a.test/x"] 1 db1 in
  length (link_rows_for "http://a.test/" "http://a.test/x" db1) = 1%nat
  /\ length (link_rows_for "http://a.test/" "http://a.test/x" db2) = 2%nat.
Proof. split; vm_compute; reflexivity. Qed.

(** Every well-typed insertion adds a row: the constraint check never
    fires on values that are not [NULL] once the counter is ahead of the
    stored ids. *)
Lemma insert_or_ignore_link_appends s t d db :
  (forall row, In row (discovered_links db) -> link_id row <= links_seq db) ->
  discovered_links (insert_or_ignore_link (Some s) (Some t) (Some d) db)
  = discovered_links db ++ [mkLinkRow (links_seq db + 1) s t d].
Proof.
  intros Hseq. unfold insert_or_ignore_link, violates_link_constraints. simpl.
  destruct (existsb _ _) eqn:E; [|reflexivity].
  apply existsb_exists in E. destruct E as [row [Hin Heq]].
  apply Hseq in Hin. apply Z.eqb_eq in Heq. lia.
Qed.

(** ** The worker *)

(** C8. Whatever the URL, the depth, the configuration and the network,
    the result that [crawl_url] returns carries one of the five statuses of
    the taxonomy; the placeholder ["error"] it starts from never survives. *)
Theorem crawl_url_status_in_taxonomy config w cache url depth :
  In (r_status (fst (crawl_url config w cache url depth))) taxonomy
  /\ r_status (fst (crawl_url config w cache url depth)) <> "error".
Proof.
  assert (Hne : forall st, In st taxonomy -> st <> "error").
  { intros st Hin. unfold taxonomy in Hin. simpl in Hin.
    intuition (subst; discriminate). }
  assert (Hin : In (r_status (fst (crawl_url config w cache url depth))) taxonomy).
  { unfold crawl_url, taxonomy.
    repeat case_match; simpl; tauto. }
  split; [exact Hin | apply Hne, Hin].
Qed.

(** [crawl_url] copies its arguments into the result. *)
Lemma crawl_url_depth config w cache url depth :
  r_depth (fst (crawl_url config w cache url depth)) = depth.
Proof. unfold crawl_url. repeat case_match; reflexivity. Qed.


(** Links are reported only below the maximum depth. *)
Lemma crawl_url_no_links_at_max_depth config w cache url depth :
  max_depth config <= depth ->
  r_links (fst (crawl_url config w cache url depth)) = [].
Proof.
  intros Hd. unfold crawl_url.
  repeat case_match; try reflexivity;
    match goal with H : (_ <? _) = true |- _ => apply Z.ltb_lt in H; lia end.
Qed.

(** A user agent without a visible character has no first token. *)
Lemma split_ws_blank s :
  Str.all Str.isspace s = true -> Str.split_ws s = [].
Proof.
  unfold Str.split_ws. induction s as [|c s IH]; simpl; [reflexivity|].
  intros H. apply andb_true_iff in H. destruct H as [Hc Hs].
  rewrite Hc. apply IH, Hs.
Qed.

(** C10. With a user agent made of whitespace only (or empty), the robots
    check allows every URL, whatever the cache holds and whatever
    [robots.txt] says: taking the first token fails and the handler answers
    [True]. *)
Theorem robots_allowed_for_blank_user_agent config w cache url :
  Str.all Str.isspace (user_agent config) = true ->
  fst (_is_robots_allowed config w cache url) = true.
Proof.
  intros Hblank. unfold _is_robots_allowed.
  rewrite (split_ws_blank _ Hblank).
  repeat case_match; reflexivity.
Qed.

Lemma robots_allowed_for_blank_user_agent_witness :
  fst (_is_robots_allowed default_config no_network cache_denying_b "http://b.test/private") = false
  /\ Str.all Str.isspace (user_agent blank_agent_config) = true
  /\ fst (_is_robots_allowed blank_agent_config no_network cache_denying_b "http://b.test/private") = true.
Proof.
  split; [vm_compute; reflexivity|].
  split; [reflexivity|].
  apply (robots_allowed_for_blank_user_agent blank_agent_config no_network cache_denying_b
           "http://b.test/private").
  reflexivity.
Defined.

(** ** The frontier *)

Section Frontier.

Variable config : CrawlerConfig.

Lemma extends_by_nil depth m m' :
  work_queue m' = work_queue m -> visited_urls m' = visited_urls m ->
  extends_by depth [] m m'.
Proof.
  intros Hq Hv. unfold extends_by. simpl.
  rewrite app_nil_r. repeat split; [done | set_solver | constructor | set_solver].
Qed.

Lemma extends_by_cons depth link added m m1 m' :
  work_queue m1 = work_queue m -> visited_urls m1 = visited_urls m ->
  link ∉ visited_urls m ->
  extends_by depth added (add_to_work_queue link depth m1) m' ->
  extends_by depth (link :: added) m m'.
Proof.
  intros Hq Hv Hfresh (Hq' & Hv' & Hnd & Hnew). unfold extends_by.
  simpl in Hq', Hv'. rewrite Hq in Hq'. rewrite Hv in Hv'.
  repeat split.
  - rewrite Hq', <- app_assoc. reflexivity.
  - rewrite Hv'. set_solver.
  - apply NoDup_cons. split; [|exact Hnd].
    intros Hin. apply Hnew in Hin. simpl in Hin. rewrite Hv in Hin. set_solver.
  - intros u Hu. apply elem_of_cons in Hu. destruct Hu as [->|Hu]; [exact Hfresh|].
    apply Hnew in Hu. simpl in Hu. rewrite Hv in Hu. set_solver.
Qed.

Lemma filter_and_add_links_from_spec links depth m acc :
  exists added,
    extends_by depth added m (fst (filter_and_add_links_from config links depth m acc))
    /\ snd (filter_and_add_links_from config links depth m acc) = acc ++ added.
Proof.
  revert m acc. induction links as [|link rest IH]; intros m acc; simpl.
  - exists []. split; [apply extends_by_nil; reflexivity | by rewrite app_nil_r].
  - case_bool_decide as Hvis; [apply IH|].
    destruct (get_domain_from_url link) as [domain|] eqn:Hdom.
    + destruct (String.eqb domain "") eqn:Hempty.
      * destruct (is_url_allowed config link); simpl.
        -- destruct (IH (add_to_work_queue link depth m) (acc ++ [link])) as (added & Hext & Hnew).
           exists (link :: added). split.
           ++ eapply extends_by_cons; eauto.
           ++ rewrite Hnew, <- app_assoc. reflexivity.
        -- apply IH.
      * destruct (defaultdict_get domain (domain_counts m)) as [count counts] eqn:Hget.
        set (m1 := set_domain_counts counts m).
        destruct (max_urls_per_domain config <=? count); [|destruct (is_url_allowed config link)]; simpl.
        -- destruct (IH m1 acc) as (added & Hext & Hnew).
           exists added. split; [|exact Hnew]. exact Hext.
        -- destruct (IH (add_to_work_queue link depth m1) (acc ++ [link])) as (added & Hext & Hnew).
           exists (link :: added). split.
           ++ eapply (extends_by_cons _ _ _ m m1); eauto.
           ++ rewrite Hnew, <- app_assoc. reflexivity.
        -- destruct (IH m1 acc) as (added & Hext & Hnew).
           exists added. split; [|exact Hnew]. exact Hext.
    + destruct (is_url_allowed config link); simpl.
      * destruct (IH (add_to_work_queue link depth m) (acc ++ [link])) as (added & Hext & Hnew).
        exists (link :: added). split.
        -- eapply extends_by_cons; eauto.
        -- rewrite Hnew, <- app_assoc. reflexivity.
      * apply IH.
Qed.

Lemma seed_work_queue_spec seed_urls m :
  exists added, extends_by 0 added m (seed_work_queue seed_urls m).
Proof.
  revert m. induction seed_urls as [|url rest IH]; intros m; simpl.
  - exists []. apply extends_by_nil; reflexivity.
  - case_bool_decide as Hvis; [apply IH|].
    destruct (IH (add_to_work_queue url 0 m)) as (added & Hext).
    exists (url :: added). eapply extends_by_cons; eauto.
Qed.

(** [extends_by] looks at the queue and the visited set only. *)
Lemma extends_by_same_frontier depth added m1 m1' m2 m2' :
  work_queue m2 = work_queue m1 -> visited_urls m2 = visited_urls m1 ->
  work_queue m2' = work_queue m1' -> visited_urls m2' = visited_urls m1' ->
  extends_by depth added m1 m1' -> extends_by depth added m2 m2'.
Proof.
  unfold extends_by. intros -> -> -> ->. tauto.
Qed.

Lemma process_result_spec rank result m db :
  exists added,
    extends_by (r_depth result + 1) added m (fst (_process_result config rank result m db))
    /\ (added <> [] -> r_depth result < max_depth config).
Proof.
  unfold _process_result.
  set (m0 := mkMaster _ _ _ _ (total_processed m + 1)).
  set (stage := if String.eqb (r_status result) "success" then _ else _).
  assert (Hstage : exists added,
             extends_by (r_depth result + 1) added m (fst stage)
             /\ (added <> [] -> r_depth result < max_depth config)).
  { subst stage.
    destruct (String.eqb (r_status result) "success");
      [|exists []; split; [apply extends_by_nil; reflexivity | congruence]].
    destruct (r_links result) as [|l ls] eqn:Hlinks;
      [exists []; split; [apply extends_by_nil; reflexivity | congruence]|].
    destruct (r_depth result <? max_depth config) eqn:Hlt;
      [|exists []; split; [apply extends_by_nil; reflexivity | congruence]].
    apply Z.ltb_lt in Hlt.
    unfold _filter_and_add_links.
    destruct (filter_and_add_links_from_spec (l :: ls) (r_depth result + 1) m0 [])
      as (added & Hext & Hnew).
    destruct (filter_and_add_links_from config (l :: ls) (r_depth result + 1) m0 [])
      as [m' new_links].
    exists added. split; [|intros _; exact Hlt].
    simpl in Hext.
    destruct new_links; simpl;
      eapply (extends_by_same_frontier _ _ m0 m'); eauto. }
  destruct Hstage as (added & Hext & Hdepth).
  exists added. split; [|exact Hdepth].
  destruct stage as [m1 db1]. simpl in Hext.
  destruct (r_domain result) as [domain|]; [|exact Hext].
  destruct (String.eqb domain ""); [exact Hext|].
  destruct (defaultdict_get domain (domain_counts m1)) as [count counts].
  simpl. eapply (extends_by_same_frontier _ _ m m1); eauto.
Qed.

End Frontier.

Section Run.

Variable config : CrawlerConfig.

Lemma grows_nil depth sys sys' :
  enqueued sys' = enqueued sys ->
  visited_urls (master sys') = visited_urls (master sys) ->
  (forall x, x ∈ in_flight sys' -> x ∈ in_flight sys \/ snd x ∈ enqueued sys') ->
  grows depth [] sys sys'.
Proof.
  intros He Hv Hf. unfold grows. simpl. rewrite app_nil_r.
  repeat split; [done | set_solver | constructor | set_solver | done].
Qed.

Lemma grows_refl depth sys : grows depth [] sys sys.
Proof. apply grows_nil; auto. Qed.

(** A step that adds nothing may follow any step. *)
Lemma grows_then_nil depth depth' added sys sys1 sys2 :
  grows depth added sys sys1 -> grows depth' [] sys1 sys2 -> grows depth added sys sys2.
Proof.
  intros (He & Hv & Hnd & Hfresh & Hfl) (He' & Hv' & _ & _ & Hfl').
  simpl in He', Hv'. rewrite app_nil_r in He'.
  unfold grows. rewrite He', Hv'. repeat split; try done.
  - rewrite Hv. set_solver.
  - intros x Hx. destruct (Hfl' x Hx) as [Hin|Hin].
    + destruct (Hfl x Hin) as [?|?]; [by left | by right].
    + right. by rewrite He' in Hin.
Qed.

Lemma grows_after_nil depth depth' added sys sys1 sys2 :
  grows depth' [] sys sys1 -> grows depth added sys1 sys2 -> grows depth added sys sys2.
Proof.
  intros (He' & Hv' & _ & _ & Hfl') (He & Hv & Hnd & Hfresh & Hfl).
  simpl in He', Hv'. rewrite app_nil_r in He'.
  unfold grows. rewrite He, Hv, He'. repeat split; try done.
  - rewrite Hv'. set_solver.
  - intros u Hu. apply Hfresh in Hu. rewrite Hv' in Hu. set_solver.
  - intros x Hx. destruct (Hfl x Hx) as [Hin|Hin].
    + destruct (Hfl' x Hin) as [?|Hin']; [by left|].
      right. rewrite He' in Hin'. apply elem_of_app. by left.
    + right. by rewrite He, He' in Hin.
Qed.

Lemma send_next_grows worker_rank activate sys :
  grows 0 [] sys (send_next worker_rank activate sys).
Proof.
  unfold send_next. destruct (work_queue (master sys)) as [|w queue] eqn:Hq;
    [apply grows_refl|].
  apply grows_nil; unfold enqueued, dispatched; simpl.
  - rewrite Hq, omap_app. simpl. rewrite <- app_assoc. reflexivity.
  - reflexivity.
  - intros x Hx. apply elem_of_app in Hx. destruct Hx as [Hx|Hx]; [by left|].
    apply list_elem_of_singleton in Hx. subst x. right. simpl.
    rewrite omap_app. simpl. set_solver.
Qed.

Lemma initial_distribution_grows size sys :
  grows 0 [] sys (initial_distribution size sys).
Proof.
  unfold initial_distribution.
  generalize (range 1 (Z.min size (Z.of_nat (length (work_queue (master sys))) + 1))).
  intros ranks. revert sys. induction ranks as [|r ranks IH]; intros sys; simpl.
  - apply grows_refl.
  - eapply grows_after_nil; [apply send_next_grows | apply IH].
Qed.

Lemma terminate_all_workers_grows size sys :
  grows 0 [] sys (_terminate_all_workers size sys).
Proof.
  apply grows_nil; unfold enqueued, dispatched, _terminate_all_workers; simpl; auto.
  rewrite omap_app. f_equal.
  assert (H : omap snd (map (fun worker_rank : Z => (worker_rank, @None WorkItem)) (range 1 size)) = []).
  { induction (range 1 size); simpl; auto. }
  rewrite H, app_nil_r. reflexivity.
Qed.

Lemma master_receive_grows rank worker_rank result sys :
  exists added,
    grows (r_depth result + 1) added sys (master_receive config rank worker_rank result sys)
    /\ (added <> [] -> r_depth result < max_depth config).
Proof.
  unfold master_receive.
  destruct (process_result_spec config rank result (master sys) (db sys))
    as (added & (Hq & Hv & Hnd & Hfresh) & Hdepth).
  destruct (_process_result config rank result (master sys) (db sys)) as [m db'].
  simpl in Hq, Hv.
  exists added. split; [|exact Hdepth].
  set (sys1 := mkSystem m db' (urls_sent sys) (results_received sys + 1) (outbox sys)
                        (in_flight sys) (worker_caches sys)).
  assert (H1 : grows (r_depth result + 1) added sys sys1).
  { unfold grows, enqueued, dispatched. subst sys1. simpl.
    rewrite Hq, app_assoc. repeat split; auto. }
  destruct (work_queue m) as [|w queue] eqn:Hwq.
  - eapply (grows_then_nil _ 0); [exact H1|].
    case_bool_decide; apply grows_nil; unfold enqueued, dispatched; subst sys1; simpl;
      rewrite ?omap_app, ?Hwq; simpl; rewrite ?app_nil_r; auto.
  - eapply grows_then_nil; [exact H1|].
    apply (send_next_grows worker_rank false sys1).
Qed.

Lemma remove_nth_subset {A} (n : nat) (l : list A) x :
  x ∈ remove_nth n l -> x ∈ l.
Proof.
  unfold remove_nth. intros Hx. apply elem_of_app in Hx.
  rewrite <- (firstn_skipn n l). apply elem_of_app.
  destruct Hx as [Hx|Hx]; [by left|right].
  apply list_elem_of_In. apply list_elem_of_In in Hx.
  destruct (skipn n l) as [|y t] eqn:Hs.
  - assert (Hnil : skipn (S n) l = []).
    { apply skipn_all2. assert (length l <= n)%nat; [|lia].
      rewrite <- (firstn_skipn n l) at 1. rewrite Hs, app_nil_r. apply firstn_le_length. }
    rewrite Hnil in Hx. destruct Hx.
  - replace (skipn (S n) l) with t in Hx; [by right|].
    change (S n) with (1 + n)%nat. rewrite <- skipn_skipn, Hs. reflexivity.
Qed.

(** One iteration of the main loop either finds no such job in flight or
    answers a job [(worker_rank, work_item)] and enqueues links one level
    below it. *)
Lemma main_loop_iteration_grows a sys :
  main_loop_iteration config a sys = sys
  \/ exists worker_rank work_item added,
      (worker_rank, work_item) ∈ in_flight sys
      /\ grows (item_depth work_item + 1) added sys (main_loop_iteration config a sys)
      /\ (added <> [] -> item_depth work_item < max_depth config).
Proof.
  unfold main_loop_iteration.
  destruct (nth_error (in_flight sys) (answered a)) as [[worker_rank work_item]|] eqn:Hnth;
    [right|by left].
  exists worker_rank, work_item.
  set (sys0 := mkSystem _ _ _ _ _ (remove_nth _ _) _).
  unfold worker_crawl.
  pose proof (crawl_url_depth config (world a)
                (default ∅ (worker_caches sys0 !! worker_rank))
                (item_url work_item) (item_depth work_item)) as Hd.
  destruct (crawl_url config (world a) (default ∅ (worker_caches sys0 !! worker_rank))
              (item_url work_item) (item_depth work_item)) as [result cache'].
  simpl in Hd.
  set (sys1 := mkSystem _ _ _ _ _ _ (<[worker_rank := cache']> _)).
  destruct (master_receive_grows (iteration_rank a) worker_rank result sys1) as (added & Hg & Hdepth).
  rewrite Hd in Hg, Hdepth.
  exists added. split; [|split; [|exact Hdepth]].
  - apply list_elem_of_In. eapply nth_error_In; eauto.
  - eapply (grows_after_nil _ 0); [|exact Hg].
    apply grows_nil; subst sys1 sys0; unfold enqueued, dispatched; simpl; auto.
    intros x Hx. left. eapply remove_nth_subset; eauto.
Qed.

End Run.

Section Reachable.

Variable config : CrawlerConfig.

Lemma reach_quiet sys sys' :
  reachable config sys -> grows 0 [] sys sys' -> reachable config sys'.
Proof. intros Hr Hg. eapply reach_grows; [exact Hr | exact Hg | congruence]. Qed.

Lemma main_loop_reachable arrivals sys :
  reachable config sys -> reachable config (main_loop config arrivals sys).
Proof.
  revert sys. induction arrivals as [|a rest IH]; intros sys Hr; simpl; [exact Hr|].
  destruct (loop_guard sys); [|exact Hr].
  apply IH.
  destruct (main_loop_iteration_grows config a sys)
    as [->|(worker_rank & work_item & added & Hin & Hg & Hd)]; [exact Hr|].
  eapply reach_grows; eauto.
  intros Hne. right. exists worker_rank, work_item. auto.
Qed.

Lemma run_master_reachable size lines arrivals :
  reachable config (run_master config size lines arrivals).
Proof.
  unfold run_master.
  destruct (_load_seed_urls lines) as [|seed rest] eqn:Hseeds.
  - eapply reach_quiet; [apply reach_initial | apply terminate_all_workers_grows].
  - set (m := seed_work_queue (seed :: rest) initial_master).
    set (sys0 := mkSystem m empty_database 0 0 [] [] ∅).
    assert (H0 : reachable config sys0).
    { destruct (seed_work_queue_spec (seed :: rest) initial_master)
        as (added & Hq & Hv & Hnd & Hfresh).
      apply (reach_grows config initial_system sys0 0 added);
        [apply reach_initial | | by left].
      unfold grows, enqueued, dispatched. subst sys0. simpl.
      repeat split; auto. }
    assert (H1 : reachable config (initial_distribution size sys0)).
    { eapply reach_quiet; [exact H0 | apply initial_distribution_grows]. }
    pose proof (main_loop_reachable arrivals _ H1) as H2.
    destruct (loop_guard _); [exact H2|].
    eapply reach_quiet; [exact H2 | apply terminate_all_workers_grows].
Qed.

Lemma map_item_url_items depth (added : list string) :
  map item_url (map (fun u => mkWorkItem u depth) added) = added.
Proof. induction added; simpl; congruence. Qed.

Lemma reachable_frontier_invariant sys :
  reachable config sys -> frontier_invariant sys.
Proof.
  induction 1 as [|sys sys' depth added Hr [IHnd IHvis] (He & Hv & Hnd & Hfresh & _) _].
  - split; [constructor|]. intros w Hw. unfold enqueued in Hw. simpl in Hw. inversion Hw.
  - split.
    + rewrite He, map_app, map_item_url_items.
      apply NoDup_app. repeat split; [exact IHnd | | exact Hnd].
      intros u Hu Hadded. apply list_elem_of_In, in_map_iff in Hu.
      destruct Hu as (w & <- & Hw). apply list_elem_of_In in Hw.
      apply (Hfresh _ Hadded), IHvis, Hw.
    + intros w Hw. rewrite He in Hw. rewrite Hv. apply elem_of_app in Hw.
      destruct Hw as [Hw|Hw]; [apply IHvis in Hw; set_solver|].
      apply list_elem_of_In, in_map_iff in Hw. destruct Hw as (u & <- & Hu).
      simpl. apply list_elem_of_In in Hu. set_solver.
Qed.

Lemma reachable_depth_invariant sys :
  0 <= max_depth config -> reachable config sys -> depth_invariant config sys.
Proof.
  intros Hmax.
  induction 1 as [|sys sys' depth added Hr [IHq IHf] (He & Hv & Hnd & Hfresh & Hfl) Hdepth].
  - split; intros x Hx; inversion Hx.
  - assert (Hq' : forall w, w ∈ enqueued sys' -> depth_bounded config w).
    { intros w Hw. rewrite He in Hw. apply elem_of_app in Hw.
      destruct Hw as [Hw|Hw]; [by apply IHq|].
      apply list_elem_of_In, in_map_iff in Hw. destruct Hw as (u & <- & Hu).
      unfold depth_bounded. simpl.
      destruct Hdepth as [->|(worker_rank & work_item & Hin & -> & Hlt)].
      { intros ->. destruct Hu. }
      { lia. }
      apply IHf in Hin. unfold depth_bounded in Hin. simpl in Hin. lia. }
    split; [exact Hq'|].
    intros x Hx. destruct (Hfl x Hx) as [Hin|Hin]; [by apply IHf | by apply Hq'].
Qed.

End Reachable.

(** C2. In every run, whatever the seed file, the number of processes and
    the results that arrive, no URL is dispatched twice and none is
    enqueued twice; everything enqueued is in [visited_urls].  Both the seed
    loop and [_filter_and_add_links] append work items only for URLs that
    were not visited, each once, and mark exactly those visited. *)
Theorem each_url_dispatched_at_most_once config size lines arrivals :
  let sys := run_master config size lines arrivals in
  NoDup (map item_url (dispatched sys))
  /\ NoDup (map item_url (enqueued sys))
  /\ (forall w, w ∈ enqueued sys -> item_url w ∈ visited_urls (master sys))
  /\ (forall seed_urls m, exists added, extends_by 0 added m (seed_work_queue seed_urls m))
  /\ (forall links depth m,
        exists added,
          extends_by depth added m (fst (_filter_and_add_links config links depth m))).
Proof.
  intros sys.
  destruct (reachable_frontier_invariant config sys (run_master_reachable config size lines arrivals))
    as [Hnd Hvis].
  repeat split.
  - unfold enqueued in Hnd. rewrite map_app in Hnd. apply NoDup_app in Hnd. tauto.
  - exact Hnd.
  - exact Hvis.
  - apply seed_work_queue_spec.
  - intros links depth m. unfold _filter_and_add_links.
    destruct (filter_and_add_links_from_spec config links depth m []) as (added & Hext & _).
    eauto.
Qed.

(** What [_process_result] leaves in the queue was there before or is a
    link one level below a result that is itself below the maximum depth. *)
Lemma process_result_queue config rank result m db w :
  w ∈ work_queue (fst (_process_result config rank result m db)) ->
  w ∈ work_queue m
  \/ (item_depth w = r_depth result + 1 /\ r_depth result < max_depth config).
Proof.
  destruct (process_result_spec config rank result m db) as (added & (Hq & _) & Hdepth).
  rewrite Hq. intros Hw. apply elem_of_app in Hw. destruct Hw as [Hw|Hw]; [by left|right].
  apply list_elem_of_In, in_map_iff in Hw. destruct Hw as (u & <- & Hu).
  split; [reflexivity|]. apply Hdepth. intros ->. destruct Hu.
Qed.

(** A result at the maximum depth or beyond admits nothing. *)
Lemma process_result_at_max_depth config rank result m db :
  max_depth config <= r_depth result ->
  work_queue (fst (_process_result config rank result m db)) = work_queue m
  /\ visited_urls (fst (_process_result config rank result m db)) = visited_urls m.
Proof.
  intros Hmax.
  destruct (process_result_spec config rank result m db) as (added & (Hq & Hv & _) & Hdepth).
  destruct added as [|u added].
  - rewrite Hq, Hv. simpl. rewrite app_nil_r. split; [reflexivity | set_solver].
  - assert (r_depth result < max_depth config) by (apply Hdepth; congruence). lia.
Qed.

(** C3. With a maximum depth that is not negative, every job dispatched to
    a worker, and every job still queued, has a depth between 0 and
    [max_depth]; a link is enqueued one level below its result and only
    when that result is below [max_depth]; a result at [max_depth] changes
    neither the queue nor the visited set, and the worker reports no links
    for it in the first place. *)
Theorem dispatched_depth_within_bound config size lines arrivals :
  0 <= max_depth config ->
  let sys := run_master config size lines arrivals in
  Forall (fun w => 0 <= item_depth w <= max_depth config) (dispatched sys)
  /\ Forall (fun w => 0 <= item_depth w <= max_depth config) (work_queue (master sys))
  /\ (forall rank result m db w,
        w ∈ work_queue (fst (_process_result config rank result m db)) ->
        w ∈ work_queue m
        \/ (item_depth w = r_depth result + 1 /\ r_depth result < max_depth config))
  /\ (forall rank result m db,
        max_depth config <= r_depth result ->
        work_queue (fst (_process_result config rank result m db)) = work_queue m
        /\ visited_urls (fst (_process_result config rank result m db)) = visited_urls m)
  /\ (forall w cache url depth,
        max_depth config <= depth ->
        r_links (fst (crawl_url config w cache url depth)) = []).
Proof.
  intros Hmax sys.
  destruct (reachable_depth_invariant config sys Hmax
              (run_master_reachable config size lines arrivals)) as [Hq _].
  repeat split.
  - apply Forall_forall. intros w Hw. apply (Hq w). unfold enqueued.
    apply elem_of_app. by left.
  - apply Forall_forall. intros w Hw. apply (Hq w). unfold enqueued.
    apply elem_of_app. by right.
  - apply process_result_queue.
  - apply process_result_at_max_depth; assumption.
  - apply process_result_at_max_depth; assumption.
  - apply crawl_url_no_links_at_max_depth.
Qed.

Lemma dispatched_depth_within_bound_witness :
  0 <= max_depth default_config
  /\ Forall (fun w => 0 <= item_depth w <= max_depth default_config)
            (dispatched (run_master default_config 2 ["http://c.test/"]
                                    [c_test_arrival; c_test_arrival])).
Proof.
  assert (H : 0 <= max_depth default_config) by (simpl; lia).
  split; [exact H|].
  exact (proj1 (dispatched_depth_within_bound default_config 2 ["http://c.test/"]
                  [c_test_arrival; c_test_arrival] H)).
Defined.

(** ** The domain quota *)

(** [_filter_and_add_links] reads [domain_counts] and never increments it:
    every count is what it was (a missing entry reads as 0 before and
    after). *)
Lemma filter_and_add_links_leaves_counts config links depth m acc domain :
  default 0 (domain_counts (fst (filter_and_add_links_from config links depth m acc)) !! domain)
  = default 0 (domain_counts m !! domain).
Proof.
  revert m acc. induction links as [|link rest IH]; intros m acc; simpl; [reflexivity|].
  case_bool_decide; [apply IH|].
  assert (Htouch : forall d,
             default 0 (snd (defaultdict_get d (domain_counts m)) !! domain)
             = default 0 (domain_counts m !! domain)).
  { intros d. unfold defaultdict_get. destruct (domain_counts m !! d) eqn:Hd; simpl; [reflexivity|].
    destruct (decide (d = domain)) as [->|Hne].
    - rewrite lookup_insert_eq, Hd. reflexivity.
    - rewrite lookup_insert_ne by done. reflexivity. }
  destruct (get_domain_from_url link) as [d|].
  - destruct (String.eqb d "").
    + destruct (is_url_allowed config link); simpl; rewrite IH; reflexivity.
    + pose proof (Htouch d) as Hd.
      destruct (defaultdict_get d (domain_counts m)) as [count counts]. simpl in Hd.
      destruct (max_urls_per_domain config <=? count);
        [|destruct (is_url_allowed config link)]; simpl; rewrite IH; simpl; exact Hd.
  - destruct (is_url_allowed config link); simpl; rewrite IH; reflexivity.
Qed.

(** C1. The quota is meant to bound the URLs admitted per domain, and does
    not: [domain_counts] grows only when a result comes back, never on
    admission, and seeds are not counted.  With a quota of 2, the seed
    [http://c.test/] and its three links are all enqueued once the seed's
    result arrives, and after the four results [domain_counts] holds 4 for
    [c.test]. *)
Theorem domain_quota_exceeded :
  let run := run_master quota_config 2 ["http://c.test/"] in
  let sys1 := run [c_test_arrival] in
  let sys4 := run [c_test_arrival; c_test_arrival; c_test_arrival; c_test_arrival] in
  max_urls_per_domain quota_config = 2
  /\ map item_url (enqueued sys1)
     = ["http://c.test/"; "http://c.test/a"; "http://c.test/b"; "http://c.test/c"]
  /\ map (fun w => get_domain_from_url (item_url w)) (enqueued sys1)
     = [Some "c.test"; Some "c.test"; Some "c.test"; Some "c.test"]
  /\ domain_counts (master sys1) !! "c.test" = Some 1
  /\ map item_url (dispatched sys4)
     = ["http://c.test/"; "http://c.test/a"; "http://c.test/b"; "http://c.test/c"]
  /\ domain_counts (master sys4) !! "c.test" = Some 4.
Proof. repeat split; vm_compute; reflexivity. Qed.

(** ** Titles *)

Section Titles.

Lemma isspace_space : Str.isspace " " = true.
Proof. reflexivity. Qed.

Lemma collapse_ws_head c s :
  Str.isspace c = false -> collapse_ws (String c s) = String c (collapse_ws s).
Proof. intros H. simpl. rewrite H. reflexivity. Qed.

Lemma collapse_ws_collapsed s : collapsed (collapse_ws s) = true.
Proof.
  induction s as [|c s IH]; [reflexivity|].
  simpl. destruct (Str.isspace c) eqn:Hc.
  - destruct s as [|c' s']; [reflexivity|].
    destruct (Str.isspace c') eqn:Hc'; [exact IH|].
    rewrite (collapse_ws_head _ _ Hc') in *.
    simpl. rewrite Hc'. simpl. simpl in IH. rewrite Hc' in IH. exact IH.
  - simpl. rewrite Hc. simpl. exact IH.
Qed.

Lemma collapsed_take n s : collapsed s = true -> collapsed (Str.take n s) = true.
Proof.
  revert s. induction n as [|n IH]; intros s H; [reflexivity|].
  destruct s as [|c s]; [reflexivity|].
  simpl in *. apply andb_true_iff in H. destruct H as [Hc Hs].
  rewrite (IH _ Hs), andb_true_r.
  destruct (Str.isspace c); simpl in *; [|reflexivity].
  destruct (Ascii.eqb c " "); simpl in *; [|discriminate].
  destruct n; [reflexivity|]. destruct s; [reflexivity|]. exact Hc.
Qed.

Lemma collapsed_ellipsis s : collapsed s = true -> collapsed (s +:+ "...") = true.
Proof.
  induction s as [|c s IH]; intros H; [reflexivity|].
  simpl in *. apply andb_true_iff in H. destruct H as [Hc Hs].
  rewrite (IH Hs), andb_true_r.
  destruct s; simpl; [|exact Hc].
  destruct (Str.isspace c); simpl; [|reflexivity].
  rewrite andb_true_r in Hc. simpl in Hc. rewrite Hc. reflexivity.
Qed.

Lemma length_take n s : (String.length (Str.take n s) <= n)%nat.
Proof.
  revert s. induction n as [|n IH]; intros [|c s]; simpl; try lia.
  specialize (IH s). lia.
Qed.

Lemma length_append s t : String.length (s +:+ t) = (String.length s + String.length t)%nat.
Proof. induction s as [|c s IH]; [reflexivity | simpl; f_equal; exact IH]. Qed.

(** What [clean_text] returns: the collapsed text, cut after [max_length]
    characters with an ellipsis appended when it is longer. *)
Lemma clean_text_collapsed text max_length :
  collapsed (clean_text text max_length) = true.
Proof.
  unfold clean_text. destruct (String.eqb text ""); [reflexivity|].
  destruct (Nat.ltb _ _).
  - apply collapsed_ellipsis, collapsed_take, collapse_ws_collapsed.
  - apply collapse_ws_collapsed.
Qed.

Lemma clean_text_length text max_length :
  (String.length (clean_text text max_length) <= max_length + 3)%nat.
Proof.
  unfold clean_text. destruct (String.eqb text ""); [simpl; lia|].
  destruct (Nat.ltb _ _) eqn:Hlt.
  - rewrite length_append. pose proof (length_take max_length (collapse_ws (Str.strip text))).
    simpl. lia.
  - apply Nat.ltb_ge in Hlt. lia.
Qed.

Lemma html_title_collapsed text : collapsed (html_title text) = true.
Proof. destruct text; [apply clean_text_collapsed | reflexivity]. Qed.

Lemma html_title_length text : (String.length (html_title text) <= 203)%nat.
Proof.
  destruct text as [t|]; simpl; [|lia].
  pose proof (clean_text_length t 200). lia.
Qed.

End Titles.

(** The title that [crawl_url] reports for a page served as HTML. *)
Lemma crawl_url_html_title config w cache url depth response :
  session_get w url = Responds response ->
  Str.contains "text/html"
    (Str.lower (match content_type response with Some c => c | None => "" end)) = true ->
  r_status (fst (crawl_url config w cache url depth)) = "success" ->
  exists title_tag,
    soup_title response = inr title_tag
    /\ r_title (fst (crawl_url config w cache url depth)) = html_title title_tag.
Proof.
  intros Hget Hhtml. unfold crawl_url. rewrite Hget, Hhtml.
  repeat case_match; simpl; try discriminate; intros _; eauto.
Qed.

(** C7, as stated: a title of 201 characters comes back 203 characters
    long, the 200 kept and the ellipsis. *)
Lemma html_title_may_exceed_200 :
  r_status (fst (crawl_url default_config long_title_world ∅ "http://a.test/" 0)) = "success"
  /\ r_title (fst (crawl_url default_config long_title_world ∅ "http://a.test/" 0))
     = times "a" 200 +:+ "..."
  /\ String.length (r_title (fst (crawl_url default_config long_title_world ∅ "http://a.test/" 0)))
     = 203%nat
  /\ ~ (String.length
          (r_title (fst (crawl_url default_config long_title_world ∅ "http://a.test/" 0)))
        <= 200)%nat.
Proof.
  assert (H : String.length
                (r_title (fst (crawl_url default_config long_title_world ∅ "http://a.test/" 0)))
              = 203%nat) by (vm_compute; reflexivity).
  split; [vm_compute; reflexivity|].
  split; [vm_compute; reflexivity|].
  split; [exact H|].
  rewrite H. lia.
Qed.

(** C7, amended. For every page served as HTML and crawled with success,
    the title is whitespace-collapsed and at most 203 characters long: it is
    the collapsed text of the title tag when that has at most 200
    characters, otherwise its first 200 characters followed by ["..."], and
    ["No Title Found"] when the page has no title tag. *)
Theorem html_title_collapsed_and_bounded config w cache url depth response :
  session_get w url = Responds response ->
  Str.contains "text/html"
    (Str.lower (match content_type response with Some c => c | None => "" end)) = true ->
  r_status (fst (crawl_url config w cache url depth)) = "success" ->
  let title := r_title (fst (crawl_url config w cache url depth)) in
  collapsed title = true
  /\ (String.length title <= 203)%nat
  /\ match soup_title response with
     | inr None => title = "No Title Found"
     | inr (Some text) =>
         let cleaned := collapse_ws (Str.strip text) in
         title = if String.eqb text "" then ""
                 else if Nat.ltb 200 (String.length cleaned)
                      then Str.take 200 cleaned +:+ "..."
                      else cleaned
     | inl _ => False
     end.
Proof.
  intros Hget Hhtml Hok title.
  destruct (crawl_url_html_title config w cache url depth response Hget Hhtml Hok)
    as (title_tag & Hsoup & Htitle).
  subst title. rewrite Htitle, Hsoup.
  split; [apply html_title_collapsed|].
  split; [apply html_title_length|].
  destruct title_tag; reflexivity.
Qed.

Lemma html_title_collapsed_and_bounded_witness :
  session_get short_title_world "http://a.test/" = Responds short_title_response
  /\ r_status (fst (crawl_url default_config short_title_world ∅ "http://a.test/" 0)) = "success"
  /\ collapsed (r_title (fst (crawl_url default_config short_title_world ∅ "http://a.test/" 0)))
     = true
  /\ (String.length (r_title (fst (crawl_url default_config short_title_world ∅ "http://a.test/" 0)))
      <= 203)%nat.
Proof.
  assert (Hok : r_status (fst (crawl_url default_config short_title_world ∅ "http://a.test/" 0))
                = "success") by (vm_compute; reflexivity).
  split; [reflexivity|]. split; [exact Hok|].
  destruct (html_title_collapsed_and_bounded default_config short_title_world ∅
              "http://a.test/" 0 short_title_response eq_refl eq_refl Hok)
    as (Hc & Hl & _).
  split; [exact Hc | exact Hl].
Defined.

(** ** The admission filter *)

Section LongUrl.

Lemma has_char_absent_replace c s :
  Str.has_char c s = false -> Str.replace (String c "") "" s = s.
Proof.
  unfold Str.replace. induction s as [|a s IH]; [reflexivity|].
  simpl. intros H. apply orb_false_iff in H. destruct H as [Hac Hs].
  rewrite Ascii.eqb_sym, Hac. simpl. f_equal. apply IH, Hs.
Qed.

Lemma has_char_absent_find c s : Str.has_char c s = false -> Str.find c s = None.
Proof.
  induction s as [|a s IH]; [reflexivity|].
  simpl. intros H. apply orb_false_iff in H. destruct H as [Hac Hs].
  rewrite Hac, (IH Hs). reflexivity.
Qed.

Lemma has_char_absent_partition c s :
  Str.has_char c s = false -> Str.partition c s = (s, false, "").
Proof. intros H. unfold Str.partition. rewrite (has_char_absent_find _ _ H). reflexivity. Qed.

Lemma endswith_cons a s suffix :
  Str.endswith (String a s) suffix
  = String.eqb (String a s) suffix || Str.endswith s suffix.
Proof. reflexivity. Qed.

Lemma endswith_has_char c s suffix :
  Str.endswith s suffix = true -> Str.has_char c suffix = true -> Str.has_char c s = true.
Proof.
  induction s as [|a s IH]; intros H Hc.
  - destruct suffix; simpl in *; discriminate.
  - rewrite endswith_cons in H. apply orb_true_iff in H. destruct H as [H|H].
    + apply String.eqb_eq in H. subst suffix. exact Hc.
    + simpl. rewrite (IH H Hc). apply orb_true_r.
Qed.

Lemma endswith_empty s : Str.endswith s "" = true.
Proof.
  induction s as [|a s IH]; [reflexivity|].
  rewrite endswith_cons, IH. apply orb_true_r.
Qed.

Lemma times_a_step k : times "a" (S k) = String "a" (times "a" k).
Proof. reflexivity. Qed.

Lemma has_char_cons c a s :
  Str.has_char c (String a s) = Ascii.eqb a c || Str.has_char c s.
Proof. reflexivity. Qed.

Lemma has_char_times_a c n : c <> "a"%char -> Str.has_char c (times "a" n) = false.
Proof.
  intros Hc. induction n as [|k IH]; [reflexivity|].
  rewrite times_a_step, has_char_cons, IH, orb_false_r.
  apply Ascii.eqb_neq. congruence.
Qed.

Lemma lower_times_a n : Str.lower (times "a" n) = times "a" n.
Proof.
  induction n as [|k IH]; [reflexivity|].
  rewrite times_a_step. simpl. rewrite IH. reflexivity.
Qed.

Lemma length_times_a n : String.length (times "a" n) = n.
Proof.
  induction n as [|k IH]; [reflexivity|].
  rewrite times_a_step. simpl. rewrite IH. reflexivity.
Qed.

Lemma long_url_length n : String.length (long_url n) = (14 + n)%nat.
Proof. unfold long_url. rewrite length_append, length_times_a. reflexivity. Qed.

Lemma has_char_long_url c n :
  Str.has_char c "http://a.test/" = false -> c <> "a"%char ->
  Str.has_char c (long_url n) = false.
Proof.
  intros Hp Hc. pose proof (has_char_times_a c n Hc) as Ht.
  unfold long_url. revert Hp. generalize "http://a.test/".
  intros p. induction p as [|a p IH]; simpl; [intros _; exact Ht|].
  intros H. apply orb_false_iff in H. destruct H as [-> H]. apply IH, H.
Qed.

Lemma lower_long_url n : Str.lower (long_url n) = long_url n.
Proof.
  change (Str.lower (long_url n)) with ("http://a.test/" +:+ Str.lower (times "a" n)).
  rewrite lower_times_a. reflexivity.
Qed.

Lemma replace_control_long_url k n :
  Str.has_char (ascii_of_nat k) "http://a.test/" = false ->
  ascii_of_nat k <> "a"%char ->
  Str.replace (Str.chr k) "" (long_url n) = long_url n.
Proof.
  intros Hp Ha. unfold Str.chr. apply has_char_absent_replace.
  apply has_char_long_url; assumption.
Qed.

Lemma remove_unsafe_bytes_long_url n : remove_unsafe_bytes (long_url n) = long_url n.
Proof.
  unfold remove_unsafe_bytes.
  rewrite (replace_control_long_url 9 n) by (vm_compute; (reflexivity || discriminate)).
  rewrite (replace_control_long_url 13 n) by (vm_compute; (reflexivity || discriminate)).
  rewrite (replace_control_long_url 10 n) by (vm_compute; (reflexivity || discriminate)).
  reflexivity.
Qed.

Lemma urlsplit_long_url n :
  urlsplit (long_url n) = Some (mkSplit "http" "a.test" ("/" +:+ times "a" n) "" "").
Proof.
  unfold urlsplit.
  change (Str.lstrip WHATWG_C0_CONTROL_OR_SPACE (long_url n)) with (long_url n).
  rewrite remove_unsafe_bytes_long_url.
  change (Str.find ":" (long_url n)) with (Some 4%nat).
  cbv iota beta zeta.
  change (Str.all Str.is_ascii_alpha (Str.take 1 (long_url n))
          && Str.all scheme_chars (Str.take 4 (long_url n))) with true.
  cbv iota beta zeta.
  change (Str.lower (Str.take 4 (long_url n))) with "http".
  change (Str.drop 5 (long_url n)) with ("//a.test/" +:+ times "a" n).
  change (String.eqb (Str.take 2 ("//a.test/" +:+ times "a" n)) "//") with true.
  change (splitnetloc ("//a.test/" +:+ times "a" n)) with ("a.test", "/" +:+ times "a" n).
  cbv iota beta zeta.
  change (Str.has_char "[" "a.test") with false.
  change (Str.has_char "]" "a.test") with false.
  cbn [andb orb negb]. cbv iota beta zeta.
  assert (Hpath : forall c, c <> "a"%char -> c <> "/"%char ->
                            Str.has_char c ("/" +:+ times "a" n) = false).
  { intros c Ha Hs. change ("/" +:+ times "a" n) with (String "/" (times "a" n)).
    rewrite has_char_cons, (has_char_times_a c n Ha), orb_false_r.
    apply Ascii.eqb_neq. congruence. }
  rewrite (has_char_absent_partition "#" _ (Hpath "#"%char ltac:(discriminate) ltac:(discriminate))).
  rewrite (has_char_absent_partition "?" _ (Hpath "?"%char ltac:(discriminate) ltac:(discriminate))).
  reflexivity.
Qed.

Lemma urlparse_long_url n :
  urlparse (long_url n) = Some (mkParse "http" "a.test" ("/" +:+ times "a" n) "" "" "").
Proof.
  unfold urlparse. rewrite urlsplit_long_url. cbn [s_scheme s_netloc s_path s_query s_fragment].
  assert (H : Str.has_char ";" ("/" +:+ times "a" n) = false).
  { change ("/" +:+ times "a" n) with (String "/" (times "a" n)).
    rewrite has_char_cons. apply has_char_times_a. discriminate. }
  rewrite H, andb_false_r. reflexivity.
Qed.

End LongUrl.

(** Under the default configuration the URLs [long_url n] are allowed
    whatever their length. *)
Lemma long_url_allowed n : is_url_allowed default_config (long_url n) = true.
Proof.
  unfold is_url_allowed.
  rewrite lower_long_url, urlparse_long_url.
  cbn [scheme path netloc].
  assert (Hscheme : bool_decide ("http" ∈ allowed_protocols default_config) = true).
  { apply bool_decide_eq_true. unfold default_config. cbn [allowed_protocols].
    apply elem_of_list_to_set, list_elem_of_here. }
  rewrite Hscheme. cbn [negb].
  assert (Hlower : Str.lower ("/" +:+ times "a" n) = "/" +:+ times "a" n).
  { change (Str.lower ("/" +:+ times "a" n)) with ("/" +:+ Str.lower (times "a" n)).
    rewrite lower_times_a. reflexivity. }
  rewrite Hlower.
  assert (Hdot : Str.has_char "." ("/" +:+ times "a" n) = false).
  { change ("/" +:+ times "a" n) with (String "/" (times "a" n)).
    rewrite has_char_cons. apply has_char_times_a. discriminate. }
  assert (Hblocked : endswith_any ("/" +:+ times "a" n) (blocked_extensions default_config) = false).
  { apply not_true_is_false. intros H. unfold endswith_any in H.
    apply existsb_exists in H. destruct H as (ext & Hin & Hend).
    apply list_elem_of_In, elem_of_elements in Hin.
    assert (Hext : Str.has_char "." ext = true).
    { unfold default_config in Hin. cbn [blocked_extensions] in Hin.
      unfold default_blocked_extensions in Hin.
      apply elem_of_list_to_set in Hin.
      repeat (apply elem_of_cons in Hin; destruct Hin as [->|Hin]; [reflexivity|]).
      inversion Hin. }
    rewrite (endswith_has_char "." _ _ Hend Hext) in Hdot. discriminate. }
  rewrite Hblocked.
  assert (Hallowed : endswith_any ("/" +:+ times "a" n) (allowed_extensions default_config) = true).
  { unfold endswith_any. apply existsb_exists. exists "". split; [|apply endswith_empty].
    apply (proj1 (list_elem_of_In _ _)), (proj2 (elem_of_elements _ _)).
    unfold default_config. cbn [allowed_extensions].
    unfold default_allowed_extensions. apply elem_of_list_to_set.
    do 9 apply list_elem_of_further. apply list_elem_of_here. }
  rewrite Hallowed. cbn [negb]. rewrite andb_false_r. reflexivity.
Qed.

(** C6, as stated: a URL of 2014 characters passes the filter, and the
    filter does not look at the host: whatever the configuration, a page
    of the host [blocked.test] gets the verdict of the same page of the
    host [a.test], and with the default configuration it is allowed. *)
Lemma long_url_and_any_host_allowed :
  ((2000 < String.length (long_url 2000))%nat
   /\ is_url_allowed default_config (long_url 2000) = true)
  /\ (forall config,
        is_url_allowed config "http://blocked.test/page.html"
        = is_url_allowed config "http://a.test/page.html")
  /\ is_url_allowed default_config "http://blocked.test/page.html" = true.
Proof.
  split; [split|split].
  - rewrite long_url_length. lia.
  - vm_compute. reflexivity.
  - intros config.
    assert (H1 : urlparse (Str.lower "http://blocked.test/page.html")
                 = Some (mkParse "http" "blocked.test" "/page.html" "" "" ""))
      by (vm_compute; reflexivity).
    assert (H2 : urlparse (Str.lower "http://a.test/page.html")
                 = Some (mkParse "http" "a.test" "/page.html" "" "" ""))
      by (vm_compute; reflexivity).
    unfold is_url_allowed. rewrite H1, H2. reflexivity.
  - vm_compute. reflexivity.
Qed.

(** C6, amended. [is_url_allowed] checks neither the length of a URL nor
    its host: [CrawlerConfig] has neither a maximum URL length nor a set
    of blocked domains.  The verdict is a function of the scheme and the
    path of the lower-cased URL: two URLs whose lower-cased forms parse to
    the same scheme and path get the same verdict, whatever their hosts
    and lengths; and no length is too long, the URLs [long_url n] being
    allowed for every [n]. *)
Theorem is_url_allowed_by_scheme_and_path_only :
  (forall config url1 url2 parsed1 parsed2,
      urlparse (Str.lower url1) = Some parsed1 ->
      urlparse (Str.lower url2) = Some parsed2 ->
      scheme parsed1 = scheme parsed2 ->
      path parsed1 = path parsed2 ->
      is_url_allowed config url1 = is_url_allowed config url2)
  /\ (forall n,
        (n < String.length (long_url n))%nat
        /\ is_url_allowed default_config (long_url n) = true).
Proof.
  split; [|split].
  - intros config url1 url2 parsed1 parsed2 H1 H2 Hs Hp. unfold is_url_allowed.
    rewrite H1, H2, Hs, Hp. reflexivity.
  - rewrite long_url_length. lia.
  - apply long_url_allowed.
Qed.

Lemma is_url_allowed_by_scheme_and_path_only_witness :
  urlparse (Str.lower "http://blocked.test/page.html")
  = Some (mkParse "http" "blocked.test" "/page.html" "" "" "")
  /\ urlparse (Str.lower "http://B.test/page.html")
     = Some (mkParse "http" "b.test" "/page.html" "" "" "")
  /\ forall config,
       is_url_allowed config "http://blocked.test/page.html"
       = is_url_allowed config "http://B.test/page.html".
Proof.
  assert (H1 : urlparse (Str.lower "http://blocked.test/page.html")
               = Some (mkParse "http" "blocked.test" "/page.html" "" "" ""))
    by (vm_compute; reflexivity).
  assert (H2 : urlparse (Str.lower "http://B.test/page.html")
               = Some (mkParse "http" "b.test" "/page.html" "" "" ""))
    by (vm_compute; reflexivity).
  split; [exact H1|]. split; [exact H2|].
  intros config.
  exact (proj1 is_url_allowed_by_scheme_and_path_only config _ _ _ _ H1 H2 eq_refl eq_refl).
Defined.

(* ===================================================================== *)
(** * Further properties *)
(* ===================================================================== *)

(** ** The master's bookkeeping *)

Section Bookkeeping.

Variable config : CrawlerConfig.

(** [_filter_and_add_links] touches neither [active_workers] nor
    [total_processed]. *)
Lemma filter_and_add_links_frame links depth m acc :
  active_workers (fst (filter_and_add_links_from config links depth m acc)) = active_workers m
  /\ total_processed (fst (filter_and_add_links_from config links depth m acc))
     = total_processed m.
Proof.
  revert m acc. induction links as [|link rest IH]; intros m acc; simpl; [done|].
  case_bool_decide; [apply IH|].
  destruct (get_domain_from_url link) as [d|].
  - destruct (String.eqb d "").
    + destruct (is_url_allowed config link); simpl;
        match goal with |- context [filter_and_add_links_from _ _ _ ?m' ?a] =>
          destruct (IH m' a) as [-> ->] end; done.
    + destruct (defaultdict_get d (domain_counts m)) as [count counts].
      destruct (max_urls_per_domain config <=? count);
        [|destruct (is_url_allowed config link)]; simpl;
        match goal with |- context [filter_and_add_links_from _ _ _ ?m' ?a] =>
          destruct (IH m' a) as [-> ->] end; done.
  - destruct (is_url_allowed config link); simpl;
      match goal with |- context [filter_and_add_links_from _ _ _ ?m' ?a] =>
        destruct (IH m' a) as [-> ->] end; done.
Qed.

Lemma process_result_frame rank result m db :
  active_workers (fst (_process_result config rank result m db)) = active_workers m
  /\ total_processed (fst (_process_result config rank result m db)) = total_processed m + 1.
Proof.
  unfold _process_result.
  set (m0 := mkMaster _ _ _ _ (total_processed m + 1)).
  set (stage := if String.eqb (r_status result) "success" then _ else _).
  assert (Hstage : active_workers (fst stage) = active_workers m
                   /\ total_processed (fst stage) = total_processed m + 1).
  { subst stage. destruct (String.eqb (r_status result) "success"); [|done].
    destruct (r_links result) as [|l ls]; [done|].
    destruct (r_depth result <? max_depth config); [|done].
    unfold _filter_and_add_links.
    destruct (filter_and_add_links_frame (l :: ls) (r_depth result + 1) m0 []) as [Ha Ht].
    destruct (filter_and_add_links_from config (l :: ls) (r_depth result + 1) m0 [])
      as [m' new_links].
    simpl in Ha, Ht. destruct new_links; simpl; auto. }
  destruct stage as [m1 db1]. simpl in Hstage.
  destruct (r_domain result) as [domain|]; [|exact Hstage].
  destruct (String.eqb domain ""); [exact Hstage|].
  destruct (defaultdict_get domain (domain_counts m1)). exact Hstage.
Qed.

(** What [send_next] does when the queue holds a work item. *)
Lemma send_next_cons worker_rank activate sys w queue :
  work_queue (master sys) = w :: queue ->
  let sys' := send_next worker_rank activate sys in
  work_queue (master sys') = queue
  /\ active_workers (master sys')
     = (if activate then {[worker_rank]} ∪ active_workers (master sys)
        else active_workers (master sys))
  /\ total_processed (master sys') = total_processed (master sys)
  /\ visited_urls (master sys') = visited_urls (master sys)
  /\ db sys' = db sys
  /\ urls_sent sys' = urls_sent sys + 1
  /\ results_received sys' = results_received sys
  /\ outbox sys' = outbox sys ++ [(worker_rank, Some w)]
  /\ in_flight sys' = in_flight sys ++ [(worker_rank, w)].
Proof. intros Hq. unfold send_next. rewrite Hq. simpl. repeat split; reflexivity. Qed.

Lemma dispatched_app_job sys sys' worker_rank w :
  outbox sys' = outbox sys ++ [(worker_rank, Some w)] ->
  dispatched sys' = dispatched sys ++ [w].
Proof. intros H. unfold dispatched. rewrite H, omap_app. reflexivity. Qed.

(** Sending a job to a worker that holds none keeps the books. *)
Lemma send_next_coordinated n worker_rank sys :
  1 <= worker_rank <= n ->
  worker_rank ∉ map fst (in_flight sys) ->
  urls_sent sys = Z.of_nat (length (dispatched sys)) ->
  results_received sys + Z.of_nat (length (in_flight sys)) = urls_sent sys ->
  total_processed (master sys) = results_received sys ->
  NoDup (map fst (in_flight sys)) ->
  Forall (fun msg => is_Some (snd msg) /\ 1 <= fst msg <= n) (outbox sys) ->
  Forall (fun x => 1 <= fst x <= n) (in_flight sys) ->
  work_queue (master sys) <> [] ->
  forall activate,
    active_workers (master (send_next worker_rank activate sys))
    = list_to_set (map fst (in_flight (send_next worker_rank activate sys))) ->
    coordinated n (send_next worker_rank activate sys).
Proof.
  intros Hrank Hfree Hsent Hres Hproc Hnd Hout Hfl Hq activate Hactive.
  destruct (work_queue (master sys)) as [|w queue] eqn:Hwq; [done|].
  destruct (send_next_cons worker_rank activate sys w queue Hwq)
    as (Hq' & _ & Ht & _ & _ & Hs & Hr & Ho & Hf).
  constructor.
  - rewrite Hs, (dispatched_app_job _ _ _ _ Ho), length_app, Hsent. simpl. lia.
  - rewrite Hs, Hr, Hf, length_app. simpl. lia.
  - rewrite Ht, Hr. exact Hproc.
  - rewrite Hf, map_app. simpl. apply NoDup_app. repeat split; [exact Hnd | | apply NoDup_singleton].
    intros r Hr' Hin. apply list_elem_of_singleton in Hin. subst r. done.
  - exact Hactive.
  - rewrite Ho. apply Forall_app. split; [exact Hout|].
    constructor; [|constructor]. simpl. split; [eauto | lia].
  - rewrite Hf. apply Forall_app. split; [exact Hfl|]. constructor; [|constructor]. simpl. lia.
  - intros _. rewrite Hf. intros E. apply app_eq_nil in E. destruct E as [_ E]. discriminate.
Qed.

End Bookkeeping.

Section Distribution.

Variable config : CrawlerConfig.

Lemma range_spec lo hi :
  NoDup (range lo hi)
  /\ (forall r, r ∈ range lo hi <-> lo <= r < hi)
  /\ length (range lo hi) = Z.to_nat (hi - lo).
Proof.
  unfold range. split; [|split].
  - assert (Hinj : Inj eq eq (fun k : nat => lo + Z.of_nat k)) by (intros a b; lia).
    apply (NoDup_fmap_2 (fun k => lo + Z.of_nat k)), NoDup_seq.
  - intros r. rewrite list_elem_of_In, in_map_iff. split.
    + intros (k & <- & Hk). apply in_seq in Hk. lia.
    + intros Hr. exists (Z.to_nat (r - lo)). split; [lia|]. apply in_seq. lia.
  - rewrite length_map, length_seq. reflexivity.
Qed.

(** Handing one queued item to each of a list of free workers keeps the
    books and consumes the head of the queue. *)
Lemma distribute_coordinated n ranks sys :
  coordinated n sys ->
  NoDup ranks ->
  (forall r, r ∈ ranks -> 1 <= r <= n /\ r ∉ map fst (in_flight sys)) ->
  (length ranks <= length (work_queue (master sys)))%nat ->
  let sys' := fold_left (fun sys worker_rank => send_next worker_rank true sys) ranks sys in
  coordinated n sys'
  /\ work_queue (master sys') = drop (length ranks) (work_queue (master sys))
  /\ map fst (in_flight sys') = map fst (in_flight sys) ++ ranks.
Proof.
  revert sys. induction ranks as [|r ranks IH]; intros sys Hc Hnd Hfree Hlen; simpl.
  - rewrite app_nil_r. auto.
  - apply NoDup_cons in Hnd. destruct Hnd as [Hr Hnd].
    destruct (work_queue (master sys)) as [|w queue] eqn:Hwq; [simpl in Hlen; lia|].
    destruct (Hfree r) as [Hrange Hrfree]; [left|].
    destruct (send_next_cons r true sys w queue Hwq)
      as (Hq' & Ha & _ & _ & _ & _ & _ & _ & Hf).
    assert (Hc1 : coordinated n (send_next r true sys)).
    { destruct Hc as [H1 H2 H3 H4 Hact H6 H7 H8].
      apply send_next_coordinated; auto; [congruence|].
      rewrite Ha, Hf, map_app, Hact. simpl. set_solver. }
    destruct (IH (send_next r true sys) Hc1 Hnd) as (Hc' & Hq'' & Hf'').
    + intros r' Hr'. split; [apply Hfree; by right|].
      rewrite Hf, map_app. simpl. intros Hin. apply elem_of_app in Hin.
      destruct Hin as [Hin|Hin].
      * destruct (Hfree r') as [_ Hn]; [by right|]. done.
      * apply list_elem_of_singleton in Hin. subst r'. done.
    + rewrite Hq'. simpl in Hlen. lia.
    + split; [exact Hc'|]. split.
      * rewrite Hq'', Hq'. reflexivity.
      * rewrite Hf'', Hf, map_app, <- app_assoc. reflexivity.
Qed.

Lemma seeded_fields lines :
  urls_sent (seeded lines) = 0 /\ results_received (seeded lines) = 0
  /\ outbox (seeded lines) = [] /\ in_flight (seeded lines) = []
  /\ db (seeded lines) = empty_database
  /\ active_workers (master (seeded lines)) = ∅
  /\ total_processed (master (seeded lines)) = 0.
Proof.
  unfold seeded. simpl. repeat split; try reflexivity.
  - generalize (_load_seed_urls lines). intros seeds.
    assert (H : forall m, active_workers (seed_work_queue seeds m) = active_workers m).
    { induction seeds as [|u rest IH]; intros m; simpl; [done|].
      case_bool_decide; rewrite IH; done. }
    apply H.
  - generalize (_load_seed_urls lines). intros seeds.
    assert (H : forall m, total_processed (seed_work_queue seeds m) = total_processed m).
    { induction seeds as [|u rest IH]; intros m; simpl; [done|].
      case_bool_decide; rewrite IH; done. }
    apply H.
Qed.

(** After the initial distribution the books are in order, the first
    [initial_workers] workers hold one job each, and the rest of the seed
    queue is still queued. *)
Lemma initial_distribution_coordinated size lines :
  2 <= size ->
  let sys := initial_distribution size (seeded lines) in
  coordinated (initial_workers size lines) sys
  /\ map fst (in_flight sys) = range 1 (initial_workers size lines + 1)
  /\ work_queue (master sys)
     = drop (Z.to_nat (initial_workers size lines)) (work_queue (master (seeded lines))).
Proof.
  intros Hsize. unfold initial_distribution, initial_workers.
  set (queue := work_queue (master (seeded lines))).
  replace (Z.min size (Z.of_nat (length queue) + 1))
    with (Z.min (size - 1) (Z.of_nat (length queue)) + 1) by lia.
  set (n := Z.min (size - 1) (Z.of_nat (length queue))).
  destruct (range_spec 1 (n + 1)) as (Hnd & Hin & Hlen).
  destruct (seeded_fields lines) as (Hs & Hr & Ho & Hf & _ & Ha & Ht).
  assert (Hlen' : length (range 1 (n + 1)) = Z.to_nat n) by (rewrite Hlen; f_equal; lia).
  destruct (range 1 (n + 1)) as [|r ranks] eqn:Hranks.
  - cbn [fold_left].
    assert (Hq : queue = []).
    { destruct queue; [done|]. simpl in Hlen'. simpl in n. lia. }
    split; [|split].
    + constructor; rewrite ?Hs, ?Hr, ?Ho, ?Hf, ?Ha, ?Ht; unfold dispatched; rewrite ?Ho;
        simpl; try done; try constructor;
        try (fold queue; rewrite Hq; done).
    + rewrite Hf. reflexivity.
    + fold queue. rewrite Hq. destruct (Z.to_nat n); reflexivity.
  - cbn [fold_left].
    apply NoDup_cons in Hnd. destruct Hnd as [Hr' Hnd].
    destruct queue as [|w queue'] eqn:Hqueue; [simpl in Hlen'; simpl in n; lia|].
    assert (Hwq : work_queue (master (seeded lines)) = w :: queue') by done.
    destruct (send_next_cons r true (seeded lines) w queue' Hwq)
      as (Hq' & Ha' & _ & _ & _ & _ & _ & _ & Hf').
    assert (Hrange : forall x, x ∈ r :: ranks -> 1 <= x <= n).
    { intros x Hx. apply Hin in Hx. lia. }
    assert (Hc1 : coordinated n (send_next r true (seeded lines))).
    { apply send_next_coordinated.
      - apply Hrange. left.
      - rewrite Hf. inversion 1.
      - rewrite Hs. unfold dispatched. rewrite Ho. reflexivity.
      - rewrite Hs, Hr, Hf. reflexivity.
      - rewrite Ht, Hr. reflexivity.
      - rewrite Hf. constructor.
      - rewrite Ho. constructor.
      - rewrite Hf. constructor.
      - rewrite Hwq. discriminate.
      - rewrite Ha', Hf', Hf, Ha. simpl. set_solver. }
    destruct (distribute_coordinated n ranks (send_next r true (seeded lines)) Hc1 Hnd)
      as (Hc & Hq'' & Hf'').
    + intros x Hx. split; [apply Hrange; by right|].
      rewrite Hf', Hf. simpl. intros Hx'. apply list_elem_of_singleton in Hx'. subst x. done.
    + rewrite Hq'. simpl in Hlen'. simpl in n. simpl. lia.
    + split; [exact Hc|]. split.
      * rewrite Hf'', Hf', Hf. reflexivity.
      * rewrite Hq'', Hq'. simpl in Hlen'. rewrite <- Hlen'. reflexivity.
Qed.

End Distribution.

Section MainLoop.

Variable config : CrawlerConfig.

Lemma remove_nth_split {A} (l : list A) i x :
  nth_error l i = Some x ->
  exists l1 l2, l = l1 ++ x :: l2 /\ remove_nth i l = l1 ++ l2.
Proof.
  intros H. destruct (nth_error_split l i H) as (l1 & l2 & -> & Hlen).
  exists l1, l2. split; [reflexivity|]. subst i. unfold remove_nth.
  induction l1 as [|y l1 IH]; [reflexivity|].
  simpl. simpl in IH. rewrite IH; [reflexivity|].
  simpl in H. exact H.
Qed.

(** An iteration of the main loop keeps the books. *)
Lemma main_loop_iteration_coordinated n a sys :
  coordinated n sys -> coordinated n (main_loop_iteration config a sys).
Proof.
  intros Hc. unfold main_loop_iteration.
  destruct (nth_error (in_flight sys) (answered a)) as [[worker_rank work_item]|] eqn:Hnth;
    [|exact Hc].
  destruct (remove_nth_split _ _ _ Hnth) as (l1 & l2 & Hl & Hrm). rewrite Hrm.
  destruct Hc as [Hsent Hres Hproc Hnd Hact Hout Hfl Hbusy].
  rewrite Hl in Hres, Hnd, Hact, Hfl.
  rewrite map_app in Hnd, Hact. simpl in Hnd, Hact.
  apply NoDup_app in Hnd. destruct Hnd as (Hnd1 & Hdisj & Hnd2).
  apply NoDup_cons in Hnd2. destruct Hnd2 as [Hr2 Hnd2].
  assert (Hfree : worker_rank ∉ map fst (l1 ++ l2)).
  { rewrite map_app. intros Hin. apply elem_of_app in Hin. destruct Hin as [Hin|Hin]; [|done].
    apply (Hdisj _ Hin). left. }
  assert (Hnd' : NoDup (map fst (l1 ++ l2))).
  { rewrite map_app. apply NoDup_app. repeat split; [exact Hnd1 | | exact Hnd2].
    intros r Hr1 Hr2'. apply (Hdisj _ Hr1). by right. }
  apply Forall_app in Hfl. destruct Hfl as [Hfl1 Hfl2].
  apply Forall_cons in Hfl2. destruct Hfl2 as [Hrank Hfl2]. simpl in Hrank.
  assert (Hfl' : Forall (fun x => 1 <= fst x <= n) (l1 ++ l2)) by (apply Forall_app; done).
  rewrite length_app in Hres. simpl in Hres.
  unfold worker_crawl. cbn [worker_caches master db urls_sent results_received outbox in_flight].
  destruct (crawl_url config (world a) _ (item_url work_item) (item_depth work_item))
    as [result cache'].
  unfold master_receive. cbn [worker_caches master db urls_sent results_received outbox in_flight].
  destruct (process_result_frame config (iteration_rank a) result (master sys) (db sys)) as [Hactive Htotal].
  destruct (_process_result config (iteration_rank a) result (master sys) (db sys)) as [m db'].
  simpl in Hactive, Htotal.
  destruct (work_queue m) as [|w queue] eqn:Hwq.
  - rewrite bool_decide_eq_false_2 by set_solver.
    constructor; cbn [worker_caches master db urls_sent results_received outbox in_flight
                      work_queue active_workers total_processed visited_urls domain_counts];
      try done.
    + rewrite length_app. lia.
    + lia.
    + rewrite Hactive, Hact, map_app.
      rewrite map_app in Hfree. set_solver.
  - set (sys1 := mkSystem m db' (urls_sent sys) (results_received sys + 1) (outbox sys)
                          (l1 ++ l2) (<[worker_rank := cache']> (worker_caches sys))).
    apply (send_next_coordinated n worker_rank sys1); subst sys1;
      cbn [worker_caches master db urls_sent results_received outbox in_flight]; try done.
    + rewrite length_app. lia.
    + lia.
    + rewrite Hwq. done.
    + destruct (send_next_cons worker_rank false
                  (mkSystem m db' (urls_sent sys) (results_received sys + 1) (outbox sys)
                            (l1 ++ l2) (<[worker_rank := cache']> (worker_caches sys)))
                  w queue Hwq) as (_ & Ha & _ & _ & _ & _ & _ & _ & Hf).
      rewrite Ha, Hf. cbn [master in_flight]. rewrite Hactive, Hact, !map_app. simpl. set_solver.
Qed.

Lemma main_loop_coordinated n arrivals sys :
  coordinated n sys -> coordinated n (main_loop config arrivals sys).
Proof.
  revert sys. induction arrivals as [|a rest IH]; intros sys Hc; simpl; [exact Hc|].
  destruct (loop_guard sys); [|exact Hc].
  apply IH, main_loop_iteration_coordinated, Hc.
Qed.

Lemma in_progress_coordinated size lines arrivals :
  2 <= size ->
  coordinated (initial_workers size lines) (in_progress config size lines arrivals).
Proof.
  intros Hsize. unfold in_progress. apply main_loop_coordinated.
  apply (initial_distribution_coordinated size lines Hsize).
Qed.

(** [run_master] is the run in progress, followed by the termination
    signals once the main loop has ended. *)
Lemma run_master_in_progress size lines arrivals :
  run_master config size lines arrivals
  = if loop_guard (in_progress config size lines arrivals)
    then in_progress config size lines arrivals
    else _terminate_all_workers size (in_progress config size lines arrivals).
Proof.
  unfold run_master, in_progress, seeded.
  destruct (_load_seed_urls lines) as [|seed rest] eqn:Hseeds; [|reflexivity].
  simpl seed_work_queue.
  assert (Hd : initial_distribution size (mkSystem initial_master empty_database 0 0 [] [] ∅)
               = initial_system).
  { unfold initial_distribution.
    match goal with |- fold_left _ ?r _ = _ => generalize r end.
    intros ranks. induction ranks as [|r ranks IH]; [reflexivity|]. simpl. exact IH. }
  rewrite Hd.
  assert (Hm : main_loop config arrivals initial_system = initial_system).
  { destruct arrivals; reflexivity. }
  rewrite Hm. reflexivity.
Qed.

End MainLoop.

Section RunBookkeeping.

Variable config : CrawlerConfig.

Lemma terminate_all_workers_fields size sys :
  master (_terminate_all_workers size sys) = master sys
  /\ db (_terminate_all_workers size sys) = db sys
  /\ urls_sent (_terminate_all_workers size sys) = urls_sent sys
  /\ results_received (_terminate_all_workers size sys) = results_received sys
  /\ in_flight (_terminate_all_workers size sys) = in_flight sys
  /\ dispatched (_terminate_all_workers size sys) = dispatched sys.
Proof.
  repeat split; try reflexivity.
  unfold dispatched, _terminate_all_workers. simpl. rewrite omap_app.
  assert (H : omap snd (map (fun worker_rank : Z => (worker_rank, @None WorkItem))
                            (range 1 size)) = []).
  { induction (range 1 size); simpl; auto. }
  rewrite H, app_nil_r. reflexivity.
Qed.

(** X1. At every point of a run with at least one worker,
    [urls_sent] is the number of jobs sent, the jobs in flight are those
    sent and not yet answered, and [total_processed] equals
    [results_received]. *)
Theorem master_counters_agree size lines arrivals :
  2 <= size ->
  let sys := run_master config size lines arrivals in
  urls_sent sys = Z.of_nat (length (dispatched sys))
  /\ results_received sys + Z.of_nat (length (in_flight sys)) = urls_sent sys
  /\ total_processed (master sys) = results_received sys.
Proof.
  intros Hsize sys. subst sys. rewrite run_master_in_progress.
  destruct (in_progress_coordinated config size lines arrivals Hsize)
    as [Hsent Hres Hproc _ _ _ _ _].
  destruct (loop_guard _); [auto|].
  destruct (terminate_all_workers_fields size (in_progress config size lines arrivals))
    as (-> & _ & -> & -> & -> & ->). auto.
Qed.

(** X2. A worker never holds two jobs, and [active_workers] is
    exactly the set of workers holding one. *)
Theorem one_job_per_worker size lines arrivals :
  2 <= size ->
  let sys := run_master config size lines arrivals in
  NoDup (map fst (in_flight sys))
  /\ active_workers (master sys) = list_to_set (map fst (in_flight sys)).
Proof.
  intros Hsize sys. subst sys. rewrite run_master_in_progress.
  destruct (in_progress_coordinated config size lines arrivals Hsize)
    as [_ _ _ Hnd Hact _ _ _].
  destruct (loop_guard _); [auto|].
  destruct (terminate_all_workers_fields size (in_progress config size lines arrivals))
    as (-> & _ & _ & _ & -> & _). auto.
Qed.

(** X3. The main loop goes on exactly while a job is in flight: it
    never waits for a result that cannot come, and it never stops with
    work still queued. *)
Theorem main_loop_runs_while_job_in_flight size lines arrivals :
  2 <= size ->
  let sys := in_progress config size lines arrivals in
  (loop_guard sys = true <-> in_flight sys <> [])
  /\ (loop_guard sys = false -> work_queue (master sys) = [] /\ in_flight sys = []).
Proof.
  intros Hsize sys.
  destruct (in_progress_coordinated config size lines arrivals Hsize)
    as [_ Hres _ _ _ _ _ Hbusy]. fold sys in Hres, Hbusy.
  assert (Hiff : loop_guard sys = true <-> in_flight sys <> []).
  { unfold loop_guard. split.
    - intros H. apply orb_true_iff in H. destruct H as [H|H].
      + apply Z.ltb_lt in H. intros E. rewrite E in Hres. simpl in Hres. lia.
      + apply Hbusy. destruct (work_queue (master sys)); [discriminate|done].
    - intros H. apply orb_true_iff. left. apply Z.ltb_lt.
      destruct (in_flight sys); [done|]. simpl in Hres. lia. }
  split; [exact Hiff|].
  intros Hfalse.
  assert (Hnil : in_flight sys = []).
  { destruct (in_flight sys) eqn:E; [done|].
    assert (loop_guard sys = true) by (apply Hiff; done). congruence. }
  split; [|exact Hnil].
  unfold loop_guard in Hfalse. apply orb_false_iff in Hfalse. destruct Hfalse as [_ Hq].
  destruct (work_queue (master sys)); [done|discriminate].
Qed.

(** X4. Jobs only ever go to the workers served by the initial
    distribution: a worker that got no seed gets no job later, however
    many links are discovered. *)
Theorem jobs_only_for_initial_workers size lines arrivals :
  2 <= size ->
  Forall (fun msg => is_Some (snd msg) -> 1 <= fst msg <= initial_workers size lines)
         (outbox (run_master config size lines arrivals)).
Proof.
  intros Hsize. rewrite run_master_in_progress.
  destruct (in_progress_coordinated config size lines arrivals Hsize)
    as [_ _ _ _ _ Hout _ _].
  assert (H : Forall (fun msg => is_Some (snd msg) -> 1 <= fst msg <= initial_workers size lines)
                     (outbox (in_progress config size lines arrivals))).
  { eapply Forall_impl; [exact Hout|]. simpl. tauto. }
  destruct (loop_guard _); [exact H|].
  unfold _terminate_all_workers. simpl. apply Forall_app. split; [exact H|].
  apply Forall_forall. intros msg Hin. apply list_elem_of_In, in_map_iff in Hin.
  destruct Hin as (r & <- & _). simpl. intros [? ?]. discriminate.
Qed.

(** X5. The main loop itself never sends a termination signal;
    once it has ended, every worker of ranks 1 to size-1 is sent exactly
    one, after all the jobs. *)
Theorem termination_signals_after_the_loop size lines arrivals :
  2 <= size ->
  let sys := in_progress config size lines arrivals in
  Forall (fun msg => is_Some (snd msg)) (outbox sys)
  /\ (loop_guard sys = true -> run_master config size lines arrivals = sys)
  /\ (loop_guard sys = false ->
      outbox (run_master config size lines arrivals)
      = outbox sys ++ map (fun worker_rank => (worker_rank, None)) (range 1 size)).
Proof.
  intros Hsize sys.
  destruct (in_progress_coordinated config size lines arrivals Hsize)
    as [_ _ _ _ _ Hout _ _]. fold sys in Hout.
  split; [eapply Forall_impl; [exact Hout|]; simpl; tauto|].
  rewrite run_master_in_progress. fold sys.
  split; intros ->; reflexivity.
Qed.

End RunBookkeeping.

Lemma master_counters_agree_witness :
  2 <= 2
  /\ urls_sent (run_master default_config 2 ["http://c.test/"] [c_test_arrival])
     = Z.of_nat (length (dispatched (run_master default_config 2 ["http://c.test/"]
                                                [c_test_arrival]))).
Proof.
  assert (H : 2 <= 2) by lia. split; [exact H|].
  exact (proj1 (master_counters_agree default_config 2 ["http://c.test/"] [c_test_arrival] H)).
Defined.

Lemma one_job_per_worker_witness :
  2 <= 3
  /\ NoDup (map fst (in_flight (run_master default_config 3 ["http://c.test/"; "http://b.test/"]
                                           [c_test_arrival]))).
Proof.
  assert (H : 2 <= 3) by lia. split; [exact H|].
  exact (proj1 (one_job_per_worker default_config 3 ["http://c.test/"; "http://b.test/"]
                  [c_test_arrival] H)).
Defined.

Lemma main_loop_runs_while_job_in_flight_witness :
  2 <= 2
  /\ (loop_guard (in_progress default_config 2 ["http://c.test/"] [c_test_arrival]) = true
      <-> in_flight (in_progress default_config 2 ["http://c.test/"] [c_test_arrival]) <> []).
Proof.
  assert (H : 2 <= 2) by lia. split; [exact H|].
  exact (proj1 (main_loop_runs_while_job_in_flight default_config 2 ["http://c.test/"]
                  [c_test_arrival] H)).
Defined.

Lemma jobs_only_for_initial_workers_witness :
  2 <= 3
  /\ initial_workers 3 ["http://c.test/"] = 1
  /\ Forall (fun msg => is_Some (snd msg) -> 1 <= fst msg <= initial_workers 3 ["http://c.test/"])
            (outbox (run_master default_config 3 ["http://c.test/"]
                                [c_test_arrival; c_test_arrival])).
Proof.
  assert (H : 2 <= 3) by lia. split; [exact H|]. split; [vm_compute; reflexivity|].
  exact (jobs_only_for_initial_workers default_config 3 ["http://c.test/"]
           [c_test_arrival; c_test_arrival] H).
Defined.

Lemma termination_signals_after_the_loop_witness :
  2 <= 2
  /\ Forall (fun msg : Z * option WorkItem => is_Some (snd msg))
            (outbox (in_progress default_config 2 ["http://c.test/"] [c_test_arrival])).
Proof.
  assert (H : 2 <= 2) by lia. split; [exact H|].
  exact (proj1 (termination_signals_after_the_loop default_config 2 ["http://c.test/"]
                  [c_test_arrival] H)).
Defined.

(** ** Seeds, admitted links and the edges stored for them *)

Section Admission.

Variable config : CrawlerConfig.

Lemma defaultdict_get_value domain counts :
  fst (defaultdict_get domain counts) = default 0 (counts !! domain).
Proof. unfold defaultdict_get. destruct (counts !! domain); reflexivity. Qed.

Lemma defaultdict_get_counts domain counts d :
  default 0 (snd (defaultdict_get domain counts) !! d) = default 0 (counts !! d).
Proof.
  unfold defaultdict_get. destruct (counts !! domain) eqn:Hd; simpl; [reflexivity|].
  destruct (decide (domain = d)) as [->|Hne].
  - rewrite lookup_insert_eq, Hd. reflexivity.
  - rewrite lookup_insert_ne by done. reflexivity.
Qed.

Lemma under_quota_same_counts m m' link :
  (forall d, default 0 (domain_counts m' !! d) = default 0 (domain_counts m !! d)) ->
  under_quota config m' link <-> under_quota config m link.
Proof.
  intros H. unfold under_quota. destruct (get_domain_from_url link); [|tauto].
  rewrite H. tauto.
Qed.

(** The URLs that a pass of [_filter_and_add_links] returns (and
    enqueues) are exactly the links that were not visited, are under the
    quota by the counts at the start of the pass, and pass the admission
    filter. *)
Lemma filter_and_add_links_from_admits links depth m acc u :
  u ∈ snd (filter_and_add_links_from config links depth m acc)
  <-> u ∈ acc
      \/ (u ∈ links /\ (u ∉ visited_urls m) /\ under_quota config m u
          /\ is_url_allowed config u = true).
Proof.
  revert m acc. induction links as [|link rest IH]; intros m acc; simpl.
  - split; [auto|]. intros [H|(H & _)]; [exact H | inversion H].
  - case_bool_decide as Hvis.
    { rewrite IH. split; [intros [?|(? & ? & ?)]; [by left | right; split; [by right | done]]|].
      intros [?|(Hin & Hnv & Hrest)]; [by left|]. right.
      apply elem_of_cons in Hin. destruct Hin as [->|Hin]; [done|]. done. }
    (* the link is not visited: the quota test, then the filter *)
    set (quota := match get_domain_from_url link with
                  | Some domain =>
                      if String.eqb domain "" then (false, m)
                      else let '(count, counts) := defaultdict_get domain (domain_counts m) in
                           (max_urls_per_domain config <=? count, set_domain_counts counts m)
                  | None => (false, m)
                  end).
    assert (Hquota : (fst quota = false <-> under_quota config m link)
                     /\ visited_urls (snd quota) = visited_urls m
                     /\ (forall d, default 0 (domain_counts (snd quota) !! d)
                                   = default 0 (domain_counts m !! d))).
    { subst quota. unfold under_quota.
      destruct (get_domain_from_url link) as [domain|]; [|simpl; tauto].
      destruct (String.eqb domain "") eqn:Hempty.
      - apply String.eqb_eq in Hempty. simpl. tauto.
      - apply String.eqb_neq in Hempty.
        pose proof (defaultdict_get_value domain (domain_counts m)) as Hv.
        pose proof (defaultdict_get_counts domain (domain_counts m)) as Hc.
        destruct (defaultdict_get domain (domain_counts m)) as [count counts].
        simpl in *. subst count. split; [|split; [reflexivity | exact Hc]].
        rewrite Z.leb_gt. tauto. }
    destruct quota as [over_limit m1]. simpl in Hquota.
    destruct Hquota as (Hover & Hv1 & Hc1).
    assert (Hsame : forall x,
               ((x ∉ visited_urls m1) /\ under_quota config m1 x /\ is_url_allowed config x = true)
               <-> ((x ∉ visited_urls m) /\ under_quota config m x /\ is_url_allowed config x = true)).
    { intros x. rewrite Hv1, (under_quota_same_counts m m1 x Hc1). tauto. }
    destruct over_limit.
    { rewrite IH. split.
      - intros [?|(Hin & Hrest)]; [by left|]. right. split; [by right|]. by apply Hsame.
      - intros [?|(Hin & Hrest)]; [by left|]. right.
        apply elem_of_cons in Hin. destruct Hin as [->|Hin].
        + destruct Hrest as (_ & Hq & _). apply Hover in Hq. discriminate.
        + split; [exact Hin|]. by apply Hsame. }
    destruct (is_url_allowed config link) eqn:Hallowed; simpl.
    + rewrite IH. simpl. rewrite Hv1. split.
      * intros [Hin|(Hin & Hnv & Hq & Ha)].
        -- apply elem_of_app in Hin. destruct Hin as [?|Hin]; [by left|].
           apply list_elem_of_singleton in Hin. subst u. right.
           split; [left|]. split; [exact Hvis|]. split; [by apply Hover | exact Hallowed].
        -- right. split; [by right|]. split; [set_solver|]. split; [|exact Ha].
           apply (under_quota_same_counts m m1 u Hc1). exact Hq.
      * intros [?|(Hin & Hnv & Hq & Ha)]; [left; apply elem_of_app; by left|].
        apply elem_of_cons in Hin. destruct Hin as [->|Hin].
        -- left. apply elem_of_app. right. left.
        -- destruct (decide (u = link)) as [->|Hne].
           ++ left. apply elem_of_app. right. left.
           ++ right. split; [exact Hin|]. split; [set_solver|]. split; [|exact Ha].
              apply (under_quota_same_counts m m1 u Hc1). exact Hq.
    + rewrite IH. split.
      * intros [?|(Hin & Hrest)]; [by left|]. right. split; [by right|]. by apply Hsame.
      * intros [?|(Hin & Hrest)]; [by left|]. right.
        apply elem_of_cons in Hin. destruct Hin as [->|Hin].
        -- destruct Hrest as (_ & _ & Ha). congruence.
        -- split; [exact Hin|]. by apply Hsame.
Qed.

End Admission.

(** X6. [_filter_and_add_links] returns exactly the links that
    were not yet visited, whose domain is under the quota by the counts
    at the start of the pass, and that the admission filter allows. *)
Theorem admitted_links_characterised config links depth m u :
  u ∈ snd (_filter_and_add_links config links depth m)
  <-> (u ∈ links /\ (u ∉ visited_urls m) /\ under_quota config m u
       /\ is_url_allowed config u = true).
Proof.
  unfold _filter_and_add_links. rewrite filter_and_add_links_from_admits.
  split; [intros [H|H]; [inversion H | exact H] | auto].
Qed.

Section Seeds.

Variable config : CrawlerConfig.

Lemma seed_work_queue_visited seed_urls m u :
  u ∈ visited_urls (seed_work_queue seed_urls m) <-> u ∈ seed_urls \/ u ∈ visited_urls m.
Proof.
  revert m. induction seed_urls as [|url rest IH]; intros m; simpl.
  - split; [auto|]. intros [H|H]; [inversion H | exact H].
  - case_bool_decide as Hvis; rewrite IH; simpl; rewrite elem_of_cons; set_solver.
Qed.

(** The seed loop enqueues every seed URL at depth 0. *)
Lemma seed_work_queue_enqueues seed_urls u :
  u ∈ seed_urls -> mkWorkItem u 0 ∈ work_queue (seed_work_queue seed_urls initial_master).
Proof.
  intros Hu.
  destruct (seed_work_queue_spec seed_urls initial_master) as (added & Hq & Hv & _).
  rewrite Hq. simpl.
  assert (Hin : u ∈ visited_urls (seed_work_queue seed_urls initial_master)).
  { apply seed_work_queue_visited. by left. }
  rewrite Hv in Hin. simpl in Hin.
  assert (Hadded : u ∈ added) by set_solver.
  apply list_elem_of_In, in_map_iff. exists u. split; [reflexivity|].
  apply list_elem_of_In, Hadded.
Qed.

(** What is enqueued stays enqueued, in place. *)
Lemma main_loop_enqueued arrivals sys :
  exists more, enqueued (main_loop config arrivals sys) = enqueued sys ++ more.
Proof.
  revert sys. induction arrivals as [|a rest IH]; intros sys; simpl.
  - exists []. by rewrite app_nil_r.
  - destruct (loop_guard sys); [|exists []; by rewrite app_nil_r].
    destruct (IH (main_loop_iteration config a sys)) as (more & Hmore).
    destruct (main_loop_iteration_grows config a sys)
      as [Heq|(worker_rank & work_item & added & _ & (He & _) & _)].
    + rewrite Heq in Hmore |- *. eauto.
    + rewrite Hmore, He, <- app_assoc. eauto.
Qed.

Lemma run_master_enqueued size lines arrivals :
  exists more,
    enqueued (run_master config size lines arrivals)
    = work_queue (master (seeded lines)) ++ more.
Proof.
  rewrite run_master_in_progress. unfold in_progress.
  destruct (main_loop_enqueued arrivals (initial_distribution size (seeded lines)))
    as (more & Hmore).
  destruct (initial_distribution_grows size (seeded lines)) as (He & _).
  simpl in He. rewrite app_nil_r in He. rewrite He in Hmore.
  assert (Hseeded : enqueued (seeded lines) = work_queue (master (seeded lines))) by reflexivity.
  rewrite Hseeded in Hmore.
  exists more. destruct (loop_guard _); [exact Hmore|].
  destruct (terminate_all_workers_grows size
              (main_loop config arrivals (initial_distribution size (seeded lines)))) as (He' & _).
  simpl in He'. rewrite app_nil_r in He'. rewrite He', Hmore. reflexivity.
Qed.

End Seeds.

(** X7. Every URL of the seed file that normalises is enqueued at
    depth 0, whatever happens later in the run. *)
Theorem every_seed_is_enqueued config size lines arrivals :
  Forall (fun url => mkWorkItem url 0 ∈ enqueued (run_master config size lines arrivals))
         (_load_seed_urls lines).
Proof.
  apply Forall_forall. intros url Hurl.
  destruct (run_master_enqueued config size lines arrivals) as (more & ->).
  apply elem_of_app. left. unfold seeded. simpl.
  apply seed_work_queue_enqueues. exact Hurl.
Qed.

(** ** The store *)

Section Store.





End Store.

(** ** The iteration order of a set *)

Section SetOrder.

(** [list_of_set] lists the elements it is given, in some order. *)
Lemma place_Permutation rank x l : place rank x l ≡ₚ x :: l.
Proof.
  induction l as [|y rest IH]; simpl; [reflexivity|].
  destruct (rank x <=? rank y); [reflexivity|].
  rewrite IH. apply Permutation_swap.
Qed.

Lemma list_of_set_Permutation rank l : list_of_set rank l ≡ₚ l.
Proof.
  unfold list_of_set. induction l as [|x rest IH]; simpl; [reflexivity|].
  rewrite place_Permutation, IH. reflexivity.
Qed.

(** They come out by increasing rank. *)
Lemma place_sorted rank x l :
  StronglySorted (fun a b => rank a <= rank b) l ->
  StronglySorted (fun a b => rank a <= rank b) (place rank x l).
Proof.
  induction l as [|y rest IH]; intros Hs; simpl.
  - repeat constructor.
  - apply StronglySorted_inv in Hs. destruct Hs as [Hrest Hy].
    destruct (rank x <=? rank y) eqn:E.
    + apply Z.leb_le in E. constructor; [constructor; assumption|].
      constructor; [exact E|].
      eapply Forall_impl; [exact Hy|]. simpl. intros z Hz. lia.
    + apply Z.leb_gt in E. constructor; [apply IH, Hrest|].
      rewrite place_Permutation. constructor; [lia | exact Hy].
Qed.

Lemma list_of_set_sorted rank l :
  StronglySorted (fun a b => rank a <= rank b) (list_of_set rank l).
Proof.
  unfold list_of_set. induction l as [|x rest IH]; simpl; [constructor|].
  apply place_sorted, IH.
Qed.

Lemma position_nonneg x l : 0 <= position x l.
Proof. induction l as [|y rest IH]; simpl; [lia|]. destruct (String.eqb x y); lia. Qed.

Lemma position_inj x y l :
  x ∈ l -> y ∈ l -> position x l = position y l -> x = y.
Proof.
  induction l as [|z rest IH]; intros Hx Hy; [inversion Hx|]. simpl.
  pose proof (position_nonneg x rest). pose proof (position_nonneg y rest).
  destruct (String.eqb x z) eqn:Ex, (String.eqb y z) eqn:Ey; intros Heq; try lia.
  - apply String.eqb_eq in Ex, Ey. congruence.
  - apply String.eqb_neq in Ex, Ey.
    apply elem_of_cons in Hx, Hy.
    destruct Hx as [Hx|Hx]; [contradiction|]. destruct Hy as [Hy|Hy]; [contradiction|].
    apply IH; [assumption | assumption | lia].
Qed.

Lemma position_sorted l :
  NoDup l -> StronglySorted (fun a b => position a l <= position b l) l.
Proof.
  induction 1 as [|y rest Hy Hnd IH]; [constructor|].
  constructor.
  - assert (Hmono : forall l', (forall z, z ∈ l' -> z ∈ rest) ->
               StronglySorted (fun a b => position a rest <= position b rest) l' ->
               StronglySorted (fun a b => position a (y :: rest) <= position b (y :: rest)) l').
    { induction l' as [|a l' IHl]; intros Hsub Hs; [constructor|].
      apply StronglySorted_inv in Hs. destruct Hs as [Hs Ha].
      assert (Hstep : forall z, z ∈ rest -> position z (y :: rest) = 1 + position z rest).
      { intros z Hz. simpl. destruct (String.eqb z y) eqn:E; [|reflexivity].
        apply String.eqb_eq in E. subst z. contradiction. }
      constructor.
      - apply IHl; [|exact Hs]. intros z Hz. apply Hsub. by right.
      - apply Forall_forall. intros b Hb. rewrite Forall_forall in Ha.
        rewrite (Hstep a), (Hstep b).
        + specialize (Ha b Hb). simpl in Ha. lia.
        + apply Hsub. by right.
        + apply Hsub. by left. }
    apply Hmono; [auto | exact IH].
  - apply Forall_forall. intros z Hz. simpl. rewrite String.eqb_refl.
    destruct (String.eqb z y); [lia|]. pose proof (position_nonneg z rest). lia.
Qed.

(** Every order of a set is the iteration order under some ranking. *)
Lemma list_of_set_any_order l l' :
  NoDup l' -> l' ≡ₚ l ->
  list_of_set (fun x => position x l') l = l'.
Proof.
  intros Hnd Hperm.
  apply (StronglySorted_unique_strong (fun a b => position a l' <= position b l')).
  - intros x1 x2 H1 H2 H12 H21. apply (position_inj x1 x2 l'); [|exact H2|lia].
    rewrite Hperm. rewrite <- (list_of_set_Permutation (fun x => position x l') l). exact H1.
  - apply list_of_set_sorted.
  - apply position_sorted, Hnd.
  - rewrite list_of_set_Permutation. symmetry. exact Hperm.
Qed.

End SetOrder.

Section StoredRun.

Variable config : CrawlerConfig.






End StoredRun.



Section Upsert.


End Upsert.




Section Stats.

Lemma sum_counts_increment {K} `{Countable K} (counts : gmap K Z) k :
  sum_counts (<[k := default 0 (counts !! k) + 1]> counts) = sum_counts counts + 1.
Proof.
  unfold sum_counts.
  assert (Hcomm : forall (m : gmap K Z) (j1 j2 : K) (z1 z2 y : Z),
             j1 <> j2 -> m !! j1 = Some z1 -> m !! j2 = Some z2 ->
             z1 + (z2 + y) = z2 + (z1 + y)) by (intros; lia).
  destruct (counts !! k) as [n|] eqn:Hk; simpl.
  - rewrite (map_fold_delete_L _ 0 k n counts (Hcomm counts) Hk).
    rewrite <- (insert_delete_eq counts).
    rewrite map_fold_insert_L; [lia | apply Hcomm | apply lookup_delete_eq].
  - rewrite map_fold_insert_L; [lia | apply Hcomm | exact Hk].
Qed.

Lemma count_by_spec {K} `{Countable K} (key : CrawlResult -> K) rows :
  sum_counts (count_by key rows) = Z.of_nat (length rows)
  /\ (forall k, default 0 (count_by key rows !! k)
                = Z.of_nat (length (List.filter (fun row => bool_decide (key (snd row) = k)) rows))).
Proof.
  induction rows as [|row rows [IHs IHk]]; simpl.
  - split; [reflexivity|]. intros k. rewrite lookup_empty. reflexivity.
  - split.
    + rewrite sum_counts_increment, IHs. lia.
    + intros k. case_bool_decide as Hk.
      * subst k. rewrite lookup_insert_eq. simpl. rewrite IHk. lia.
      * rewrite lookup_insert_ne by done. apply IHk.
Qed.

End Stats.

(** X12. In [get_crawl_stats] the counts per status and the counts per
    depth each add up to [total_crawled], and the count of a status is the
    number of rows with that status (none for a status without rows). *)
Theorem crawl_stats_counts_add_up db :
  let stats := get_crawl_stats db in
  sum_counts (status_counts stats) = total_crawled stats
  /\ sum_counts (depth_counts stats) = total_crawled stats
  /\ (forall status,
        default 0 (status_counts stats !! status)
        = Z.of_nat (length (List.filter (fun row => String.eqb (r_status (snd row)) status)
                                        (crawled_urls db)))).
Proof.
  intros stats. subst stats. unfold get_crawl_stats. simpl.
  split; [apply count_by_spec|]. split; [apply count_by_spec|].
  intros status. rewrite (proj2 (count_by_spec r_status (crawled_urls db))).
  f_equal. f_equal. induction (crawled_urls db) as [|row rows IH]; [reflexivity|].
  simpl. rewrite IH.
  destruct (String.eqb (r_status (snd row)) status) eqn:E.
  - apply String.eqb_eq in E. rewrite bool_decide_eq_true_2 by exact E. reflexivity.
  - apply String.eqb_neq in E. rewrite bool_decide_eq_false_2 by exact E. reflexivity.
Qed.

(** ** The worker, again *)

(** X13. A URL that the admission filter rejects is answered
    without any network access: the result is [blocked] whatever the
    network, and the robots cache is left as it was. *)
Theorem blocked_url_needs_no_network config w w' cache url depth :
  is_url_allowed config url = false ->
  crawl_url config w cache url depth = crawl_url config w' cache url depth
  /\ snd (crawl_url config w cache url depth) = cache
  /\ r_status (fst (crawl_url config w cache url depth)) = "blocked"
  /\ r_links (fst (crawl_url config w cache url depth)) = [].
Proof.
  intros H. unfold crawl_url. rewrite H. simpl. auto.
Qed.

Lemma blocked_url_needs_no_network_witness :
  is_url_allowed default_config "http://d.test/file.pdf" = false
  /\ r_status (fst (crawl_url default_config c_test_world ∅ "http://d.test/file.pdf" 0))
     = "blocked".
Proof.
  assert (H : is_url_allowed default_config "http://d.test/file.pdf" = false)
    by (vm_compute; reflexivity).
  split; [exact H|].
  exact (proj1 (proj2 (proj2 (blocked_url_needs_no_network default_config c_test_world
                                 no_network ∅ "http://d.test/file.pdf" 0 H)))).
Defined.

(** X14. The links of a result all pass the admission filter, and a
    result carries links only when its status is [success] and its depth
    is below [max_depth]. *)
Theorem result_links_are_allowed_and_below_max_depth config w cache url depth :
  let result := fst (crawl_url config w cache url depth) in
  Forall (fun link => is_url_allowed config link = true) (r_links result)
  /\ (r_links result <> [] -> r_status result = "success" /\ depth < max_depth config).
Proof.
  intros result.
  assert (H : r_links result = []
              \/ exists extracted,
                  r_links result = valid_links config extracted
                  /\ r_status result = "success" /\ depth < max_depth config).
  { subst result. unfold crawl_url.
    repeat case_match; simpl; try (left; reflexivity);
      right; eexists; repeat split; try reflexivity; apply Z.ltb_lt; assumption. }
  destruct H as [->|(extracted & -> & Hs & Hd)].
  - split; [constructor | congruence].
  - split; [|auto]. unfold valid_links. destruct extracted as [ls|]; [|constructor].
    apply Forall_forall. intros link Hin. apply list_elem_of_In, filter_In in Hin. tauto.
Qed.

Lemma result_links_are_allowed_and_below_max_depth_witness :
  r_links (fst (crawl_url default_config c_test_world ∅ "http://c.test/" 0)) <> []
  /\ r_status (fst (crawl_url default_config c_test_world ∅ "http://c.test/" 0)) = "success"
  /\ 0 < max_depth default_config.
Proof.
  assert (H : r_links (fst (crawl_url default_config c_test_world ∅ "http://c.test/" 0)) <> [])
    by (vm_compute; discriminate).
  split; [exact H|].
  exact (proj2 (result_links_are_allowed_and_below_max_depth
                  default_config c_test_world ∅ "http://c.test/" 0) H).
Defined.

(** X15. A result has no error message exactly when its
    status is [success]. *)
Theorem error_message_unless_success config w cache url depth :
  let result := fst (crawl_url config w cache url depth) in
  r_error_message result = None <-> r_status result = "success".
Proof.
  unfold crawl_url.
  repeat case_match; simpl; split; intros Hgoal; try reflexivity; discriminate.
Qed.

(** X16. With [respect_robots_txt] off, [crawl_url] neither reads
    nor fills the robots cache, and its result does not depend on any
    [robots.txt]. *)
Theorem robots_ignored_when_not_respected config w cache url depth :
  respect_robots_txt config = false ->
  snd (crawl_url config w cache url depth) = cache
  /\ (forall robots cache',
        fst (crawl_url config (mkWorld robots (session_get w)) cache' url depth)
        = fst (crawl_url config w cache url depth)).
Proof.
  intros H. unfold crawl_url. rewrite H. simpl.
  split; [repeat case_match; reflexivity|].
  intros robots cache'. repeat case_match; reflexivity.
Qed.

Lemma robots_ignored_when_not_respected_witness :
  respect_robots_txt no_robots_config = false
  /\ snd (crawl_url no_robots_config c_test_world cache_denying_b "http://b.test/private" 0)
     = cache_denying_b.
Proof.
  assert (H : respect_robots_txt no_robots_config = false) by reflexivity.
  split; [exact H|].
  exact (proj1 (robots_ignored_when_not_respected no_robots_config c_test_world
                  cache_denying_b "http://b.test/private" 0 H)).
Defined.

(** ** The robots cache *)

(** X17. The method [_is_robots_allowed] and the function
    [is_robots_allowed] of [utils.py] agree when the latter is given the
    first token of the configured user agent. *)
Theorem robots_checks_agree config w cache url token rest :
  Str.split_ws (user_agent config) = token :: rest ->
  _is_robots_allowed config w cache url = is_robots_allowed w url cache token.
Proof.
  intros H. unfold _is_robots_allowed, is_robots_allowed. rewrite H.
  repeat case_match; reflexivity.
Qed.

Lemma robots_checks_agree_witness :
  Str.split_ws (user_agent default_config) = ["Mozilla/5.0"; "(compatible;"; "ParallelCrawler/1.0)"]
  /\ _is_robots_allowed default_config no_network cache_denying_b "http://b.test/private"
     = is_robots_allowed no_network "http://b.test/private" cache_denying_b "Mozilla/5.0".
Proof.
  assert (H : Str.split_ws (user_agent default_config)
              = ["Mozilla/5.0"; "(compatible;"; "ParallelCrawler/1.0)"])
    by (vm_compute; reflexivity).
  split; [exact H|].
  exact (robots_checks_agree default_config no_network cache_denying_b
           "http://b.test/private" _ _ H).
Defined.

(** X18. The robots cache only grows, and for an origin it already
    holds the check does not touch the network: the verdict is the same
    whatever [robots.txt] says now, and the cache is unchanged. *)
Theorem robots_cache_memoizes config w cache url :
  cache ⊆ snd (_is_robots_allowed config w cache url)
  /\ (forall parsed,
        urlparse url = Some parsed ->
        is_Some (cache !! origin parsed) ->
        snd (_is_robots_allowed config w cache url) = cache
        /\ forall w', _is_robots_allowed config w' cache url
                      = _is_robots_allowed config w cache url).
Proof.
  unfold _is_robots_allowed, origin. split.
  - destruct (urlparse url) as [parsed|]; [|done].
    destruct (cache !! (scheme parsed +:+ "://" +:+ netloc parsed)) as [entry|] eqn:Hc.
    + repeat case_match; done.
    + repeat case_match; simpl; apply insert_subseteq; exact Hc.
  - intros parsed -> [entry Hc]. rewrite Hc. split; [repeat case_match; reflexivity|].
    intros w'. reflexivity.
Qed.

Lemma robots_cache_memoizes_witness :
  urlparse "http://b.test/private" = Some (mkParse "http" "b.test" "/private" "" "" "")
  /\ is_Some (cache_denying_b !! origin (mkParse "http" "b.test" "/private" "" "" ""))
  /\ snd (_is_robots_allowed default_config no_network cache_denying_b "http://b.test/private")
     = cache_denying_b.
Proof.
  assert (H1 : urlparse "http://b.test/private"
               = Some (mkParse "http" "b.test" "/private" "" "" ""))
    by (vm_compute; reflexivity).
  assert (H2 : is_Some (cache_denying_b !! origin (mkParse "http" "b.test" "/private" "" "" "")))
    by (vm_compute; eexists; reflexivity).
  split; [exact H1|]. split; [exact H2|].
  exact (proj1 (proj2 (robots_cache_memoizes default_config no_network cache_denying_b
                         "http://b.test/private") _ H1 H2)).
Defined.



(** ** Stripping and cleaning text *)

Section Strip.

Lemma rstrip_cons p c s :
  Str.rstrip p (String c s)
  = match Str.rstrip p s with
    | EmptyString => if p c then EmptyString else String c EmptyString
    | t => String c t
    end.
Proof. reflexivity. Qed.

Lemma lstrip_starts_clean s : starts_clean (Str.lstrip Str.isspace s) = true.
Proof.
  induction s as [|c s IH]; [reflexivity|].
  simpl. destruct (Str.isspace c) eqn:Hc; [exact IH|]. simpl. rewrite Hc. reflexivity.
Qed.

Lemma lstrip_clean s : starts_clean s = true -> Str.lstrip Str.isspace s = s.
Proof.
  destruct s as [|c s]; [reflexivity|]. simpl. intros H.
  apply negb_true_iff in H. rewrite H. reflexivity.
Qed.

Lemma rstrip_starts_clean s :
  starts_clean s = true -> starts_clean (Str.rstrip Str.isspace s) = true.
Proof.
  destruct s as [|c s]; [reflexivity|]. intros H. simpl in H.
  rewrite rstrip_cons. destruct (Str.rstrip Str.isspace s).
  - apply negb_true_iff in H. rewrite H. simpl. rewrite H. reflexivity.
  - simpl. exact H.
Qed.

Lemma rstrip_ends_clean s : ends_clean (Str.rstrip Str.isspace s) = true.
Proof.
  induction s as [|c s IH]; [reflexivity|].
  rewrite rstrip_cons. destruct (Str.rstrip Str.isspace s) as [|a t] eqn:Hr.
  - destruct (Str.isspace c) eqn:Hc; [reflexivity|]. simpl. rewrite Hc. reflexivity.
  - exact IH.
Qed.

Lemma rstrip_clean s : ends_clean s = true -> Str.rstrip Str.isspace s = s.
Proof.
  induction s as [|c s IH]; [reflexivity|]. intros H.
  rewrite rstrip_cons. destruct s as [|a t].
  - simpl in *. apply negb_true_iff in H. rewrite H. reflexivity.
  - rewrite (IH H). reflexivity.
Qed.

Lemma strip_clean s :
  starts_clean s = true -> ends_clean s = true -> Str.strip s = s.
Proof.
  intros Hs He. unfold Str.strip. rewrite (lstrip_clean s Hs). apply rstrip_clean, He.
Qed.

Lemma strip_is_clean s :
  starts_clean (Str.strip s) = true /\ ends_clean (Str.strip s) = true.
Proof.
  unfold Str.strip. split.
  - apply rstrip_starts_clean, lstrip_starts_clean.
  - apply rstrip_ends_clean.
Qed.

Lemma strip_idempotent s : Str.strip (Str.strip s) = Str.strip s.
Proof. destruct (strip_is_clean s). apply strip_clean; assumption. Qed.

Lemma normalize_url_strip url : normalize_url (Str.strip url) = normalize_url url.
Proof. unfold normalize_url. rewrite strip_idempotent. reflexivity. Qed.

End Strip.

(** X20. Whitespace around a URL does not matter to [normalize_url]:
    stripping twice is stripping once, so the [strip()] that
    [validate_seed_urls] applies first changes nothing. *)
Theorem normalize_url_ignores_surrounding_whitespace url :
  Str.strip (Str.strip url) = Str.strip url
  /\ normalize_url (Str.strip url) = normalize_url url.
Proof.
  split; [apply strip_idempotent | apply normalize_url_strip].
Qed.

Section CleanText.














End CleanText.


(** ** What [normalize_url] returns *)

Section NormalizeShape.

Lemma has_char_append c s t :
  Str.has_char c (s +:+ t) = Str.has_char c s || Str.has_char c t.
Proof.
  induction s as [|a s IH]; [reflexivity|].
  change (String a s +:+ t) with (String a (s +:+ t)).
  rewrite !has_char_cons, IH, orb_assoc. reflexivity.
Qed.

Lemma has_char_take c n s :
  Str.has_char c s = false -> Str.has_char c (Str.take n s) = false.
Proof.
  revert s. induction n as [|n IH]; intros [|a s] H; try reflexivity.
  rewrite has_char_cons in H. apply orb_false_iff in H. destruct H as [Ha Hs].
  change (Str.take (S n) (String a s)) with (String a (Str.take n s)).
  rewrite has_char_cons, Ha, (IH s Hs). reflexivity.
Qed.

Lemma has_char_drop c n s :
  Str.has_char c s = false -> Str.has_char c (Str.drop n s) = false.
Proof.
  revert s. induction n as [|n IH]; intros [|a s] H; try reflexivity; try exact H.
  rewrite has_char_cons in H. apply orb_false_iff in H. destruct H as [Ha Hs].
  exact (IH s Hs).
Qed.

(** The text before the first [c] holds no [c]. *)
Lemma find_take_no_char c s i :
  Str.find c s = Some i -> Str.has_char c (Str.take i s) = false.
Proof.
  revert i. induction s as [|a s IH]; intros i H; [discriminate|].
  simpl in H. destruct (Ascii.eqb a c) eqn:Ha.
  - inversion H. reflexivity.
  - destruct (Str.find c s) as [j|]; [|discriminate]. inversion H. subst i.
    change (Str.take (S j) (String a s)) with (String a (Str.take j s)).
    rewrite has_char_cons, Ha, (IH j eq_refl). reflexivity.
Qed.

Lemma find_none_no_char c s : Str.find c s = None -> Str.has_char c s = false.
Proof.
  induction s as [|a s IH]; [reflexivity|]. simpl.
  destruct (Ascii.eqb a c); [discriminate|].
  destruct (Str.find c s); [discriminate|]. intros _. simpl. apply IH. reflexivity.
Qed.

Lemma partition_before_no_char c s :
  Str.has_char c (fst (fst (Str.partition c s))) = false.
Proof.
  unfold Str.partition. destruct (Str.find c s) as [i|] eqn:H; cbn [fst snd].
  - apply find_take_no_char, H.
  - apply find_none_no_char, H.
Qed.

Lemma partition_parts_no_char d c s :
  Str.has_char d s = false ->
  Str.has_char d (fst (fst (Str.partition c s))) = false
  /\ Str.has_char d (snd (Str.partition c s)) = false.
Proof.
  intros H. unfold Str.partition. destruct (Str.find c s) as [i|]; cbn [fst snd].
  - split; [apply has_char_take | apply has_char_drop]; exact H.
  - split; [exact H | reflexivity].
Qed.

Lemma until_delim_no_delim c s :
  is_netloc_delim c = true -> Str.has_char c (fst (until_delim s)) = false.
Proof.
  intros Hc. induction s as [|a s IH]; [reflexivity|].
  simpl. destruct (is_netloc_delim a) eqn:Ha; [reflexivity|].
  destruct (until_delim s) as [d rest]. simpl in *.
  rewrite IH, orb_false_r. apply Ascii.eqb_neq. intros ->. congruence.
Qed.

(** No component that [urlsplit] returns before the fragment holds a [#]. *)
Lemma urlsplit_no_hash url r :
  urlsplit url = Some r ->
  Str.has_char "#" (s_netloc r) = false
  /\ Str.has_char "#" (s_path r) = false
  /\ Str.has_char "#" (s_query r) = false.
Proof.
  unfold urlsplit.
  match goal with |- context [let '(a, b) := ?x in _] => destruct x as [sch url2] end.
  set (with_netloc := if String.eqb (Str.take 2 url2) "//" then _ else _).
  assert (Hnet : forall netloc url3, with_netloc = Some (netloc, url3) ->
                                     Str.has_char "#" netloc = false).
  { subst with_netloc. intros netloc url3.
    destruct (String.eqb (Str.take 2 url2) "//"); [|intros H; inversion H; reflexivity].
    pose proof (until_delim_no_delim "#" (Str.drop 2 url2) eq_refl) as Hd.
    unfold splitnetloc. destruct (until_delim (Str.drop 2 url2)) as [n rest]. simpl in Hd.
    repeat case_match; intros Hsome; inversion Hsome; subst; exact Hd. }
  destruct with_netloc as [[netloc url3]|]; [|discriminate].
  specialize (Hnet netloc url3 eq_refl).
  pose proof (partition_before_no_char "#" url3) as Hfrag.
  destruct (Str.partition "#" url3) as [[url4 found] fragment]. simpl in Hfrag.
  destruct (partition_parts_no_char "#" "?" url4 Hfrag) as [Hpath Hquery].
  destruct (Str.partition "?" url4) as [[url5 found'] query]. simpl in Hpath, Hquery.
  intros H. inversion H. simpl. auto.
Qed.

Lemma urlparse_no_hash url parsed :
  urlparse url = Some parsed ->
  Str.has_char "#" (netloc parsed) = false
  /\ Str.has_char "#" (path parsed) = false
  /\ Str.has_char "#" (query parsed) = false.
Proof.
  unfold urlparse. destruct (urlsplit url) as [r|] eqn:Hr; [|discriminate].
  destruct (urlsplit_no_hash url r Hr) as (Hn & Hp & Hq).
  destruct (Str.in_list (s_scheme r) uses_params && Str.has_char ";" (s_path r)).
  - unfold splitparams.
    assert (Hcut : forall oi,
               Str.has_char "#"
                 (fst (match oi with
                       | Some i => (Str.take i (s_path r), Str.drop (S i) (s_path r))
                       | None => (s_path r, EmptyString)
                       end)) = false).
    { intros [i|]; cbn [fst snd]; [apply has_char_take|]; exact Hp. }
    destruct (Str.rfind "/" (s_path r)) as [slash|].
    + specialize (Hcut (Str.find_from ";" (s_path r) slash)).
      destruct (match Str.find_from ";" (s_path r) slash with
                | Some i => _ | None => _ end) as [url' params].
      intros H. inversion H. simpl in *. auto.
    + specialize (Hcut (Str.find ";" (s_path r))).
      destruct (match Str.find ";" (s_path r) with
                | Some i => _ | None => _ end) as [url' params].
      intros H. inversion H. simpl in *. auto.
  - intros H. inversion H. simpl. auto.
Qed.

Lemma lower_char_hash a : Ascii.eqb (Str.lower_char a) "#" = Ascii.eqb a "#".
Proof. destruct a as [[] [] [] [] [] [] [] []]; reflexivity. Qed.

Lemma has_char_hash_lower s : Str.has_char "#" (Str.lower s) = Str.has_char "#" s.
Proof.
  induction s as [|a s IH]; [reflexivity|].
  change (Str.lower (String a s)) with (String (Str.lower_char a) (Str.lower s)).
  rewrite !has_char_cons, lower_char_hash, IH. reflexivity.
Qed.

Lemma has_char_replace_from c old s skip :
  Str.has_char c s = false -> Str.has_char c (Str.replace_from old "" s skip) = false.
Proof.
  revert skip. induction s as [|a s IH]; intros skip H; [reflexivity|].
  rewrite has_char_cons in H. apply orb_false_iff in H. destruct H as [Ha Hs].
  simpl. destruct skip; [|apply IH, Hs].
  destruct (Str.startswith old (String a s)).
  - change ("" +:+ ?x) with x. apply IH, Hs.
  - rewrite has_char_cons, Ha. apply IH, Hs.
Qed.

Lemma has_char_rstrip c p s :
  Str.has_char c s = false -> Str.has_char c (Str.rstrip p s) = false.
Proof.
  induction s as [|a s IH]; intros H; [reflexivity|].
  rewrite has_char_cons in H. apply orb_false_iff in H. destruct H as [Ha Hs].
  simpl. specialize (IH Hs). destruct (Str.rstrip p s).
  - destruct (p a); [reflexivity|]. rewrite has_char_cons, Ha. reflexivity.
  - rewrite has_char_cons, Ha. exact IH.
Qed.

(** What [normalize_url] assembles: a scheme [http] or [https] and
    components without [#]. *)
Lemma normalize_url_parts url v :
  normalize_url url = Some v ->
  exists sch net pth qry,
    (sch = "http" \/ sch = "https")
    /\ v = urlunsplit sch net pth qry ""
    /\ Str.has_char "#" net = false
    /\ Str.has_char "#" pth = false
    /\ Str.has_char "#" qry = false.
Proof.
  unfold normalize_url.
  destruct (urlparse (Str.strip url)) as [parsed|] eqn:Hp; [|discriminate].
  destruct (urlparse_no_hash _ _ Hp) as (Hn & Hpa & Hq).
  destruct (Str.in_list (scheme parsed) ["http"; "https"]) eqn:Hs; [|discriminate].
  destruct (String.eqb (netloc parsed) ""); [discriminate|]. simpl.
  assert (Hsch : scheme parsed = "http" \/ scheme parsed = "https").
  { unfold Str.in_list in Hs. simpl in Hs. rewrite orb_false_r in Hs.
    apply orb_true_iff in Hs. destruct Hs as [H|H]; apply String.eqb_eq in H; auto. }
  assert (Hlow : Str.lower (scheme parsed) = scheme parsed).
  { destruct Hsch as [-> | ->]; reflexivity. }
  rewrite Hlow.
  assert (Hnl : Str.has_char "#" (Str.lower (netloc parsed)) = false)
    by (rewrite has_char_hash_lower; exact Hn).
  intros H. inversion H. clear H.
  eexists (scheme parsed), _, _, (query parsed).
  split; [exact Hsch|]. split; [unfold urlunparse; simpl; reflexivity|].
  split; [|split; [|exact Hq]].
  - repeat case_match; try exact Hnl; apply has_char_replace_from, Hnl.
  - repeat case_match; try exact Hpa; try reflexivity; apply has_char_rstrip, Hpa.
Qed.

Lemma startswith_append p s t :
  Str.startswith p s = true -> Str.startswith p (s +:+ t) = true.
Proof.
  revert s. induction p as [|a p IH]; intros s H; [reflexivity|].
  destruct s as [|b s]; [discriminate|].
  simpl in *. apply andb_true_iff in H. destruct H as [-> H]. apply IH, H.
Qed.

Lemma take_2_slashes pth :
  String.eqb (Str.take 2 pth) "//" = true -> exists rest, pth = String "/" (String "/" rest).
Proof.
  intros E. apply String.eqb_eq in E.
  destruct pth as [|a [|b rest]]; simpl in E; inversion E; eauto.
Qed.

Lemma urlunsplit_prefix sch net pth qry :
  sch = "http" \/ sch = "https" ->
  Str.startswith (sch +:+ "://") (urlunsplit sch net pth qry "") = true.
Proof.
  intros Hsch. unfold urlunsplit.
  assert (Hne : String.eqb sch "" = false) by (destruct Hsch as [-> | ->]; reflexivity).
  assert (Hin : Str.in_list sch uses_netloc = true) by (destruct Hsch as [-> | ->]; reflexivity).
  rewrite Hne, Hin.
  destruct (String.eqb net ""); destruct (String.eqb (Str.take 2 pth) "//") eqn:E;
    destruct (negb (String.eqb pth "") && negb (String.eqb (Str.take 1 pth) "/"));
    destruct (String.eqb qry ""); cbn [negb andb orb];
    try (destruct Hsch as [-> | ->]; reflexivity);
    destruct (take_2_slashes pth E) as (rest & ->);
    destruct Hsch as [-> | ->]; reflexivity.
Qed.

Lemma urlunsplit_no_hash sch net pth qry :
  sch = "http" \/ sch = "https" ->
  Str.has_char "#" net = false -> Str.has_char "#" pth = false ->
  Str.has_char "#" qry = false ->
  Str.has_char "#" (urlunsplit sch net pth qry "") = false.
Proof.
  intros Hsch Hn Hp Hq. unfold urlunsplit.
  assert (Hs : Str.has_char "#" sch = false) by (destruct Hsch as [-> | ->]; reflexivity).
  change (String.eqb "" "") with true. cbn [negb].
  repeat case_match; rewrite ?has_char_append, ?Hs, ?Hn, ?Hp, ?Hq; reflexivity.
Qed.

Lemma normalize_url_prefix url v :
  normalize_url url = Some v ->
  (Str.startswith "http://" v = true \/ Str.startswith "https://" v = true)
  /\ v <> "".
Proof.
  intros H. destruct (normalize_url_parts url v H) as (sch & net & pth & qry & Hsch & -> & _).
  pose proof (urlunsplit_prefix sch net pth qry Hsch) as Hp.
  assert (Hor : Str.startswith "http://" (urlunsplit sch net pth qry "") = true
                \/ Str.startswith "https://" (urlunsplit sch net pth qry "") = true).
  { destruct Hsch as [-> | ->]; [left | right]; exact Hp. }
  split; [exact Hor|].
  intros E. rewrite E in Hor. destruct Hor; discriminate.
Qed.

Lemma validate_seed_urls_omap urls :
  validate_seed_urls urls = omap normalize_url urls.
Proof.
  induction urls as [|url rest IH]; [reflexivity|].
  simpl. rewrite (normalize_url_strip url), IH.
  destruct (normalize_url url) as [v|] eqn:Hv; [|reflexivity].
  destruct (normalize_url_prefix url v Hv) as [_ Hne].
  apply String.eqb_neq in Hne. rewrite Hne. reflexivity.
Qed.

Lemma normalize_url_blank line : Str.strip line = "" -> normalize_url line = None.
Proof. intros H. unfold normalize_url. rewrite H. reflexivity. Qed.

Lemma load_seed_urls_omap lines :
  omap normalize_url
    (List.filter (fun line => negb (String.eqb line "")) (map Str.strip lines))
  = omap normalize_url lines.
Proof.
  induction lines as [|line rest IH]; [reflexivity|].
  cbn [map List.filter].
  destruct (String.eqb (Str.strip line) "") eqn:E; cbn [negb].
  - apply String.eqb_eq in E. cbn [omap list_omap]. rewrite (normalize_url_blank line E). exact IH.
  - change (omap normalize_url (Str.strip line :: ?l)) with
      (match normalize_url (Str.strip line) with Some y => y :: omap normalize_url l | None => omap normalize_url l end).
    cbn [omap list_omap]. rewrite (normalize_url_strip line), IH. reflexivity.
Qed.

End NormalizeShape.

(** X22. Whatever [normalize_url] returns starts with [http://] or
    [https://], the scheme in lower case, and is therefore never empty. *)
Theorem normalize_url_starts_with_scheme url v :
  normalize_url url = Some v ->
  (Str.startswith "http://" v = true \/ Str.startswith "https://" v = true)
  /\ v <> "".
Proof. apply normalize_url_prefix. Qed.

(** X23. [normalize_url] drops the fragment: its output holds no
    [#] at all. *)
Theorem normalize_url_drops_fragment url v :
  normalize_url url = Some v -> Str.has_char "#" v = false.
Proof.
  intros H. destruct (normalize_url_parts url v H)
    as (sch & net & pth & qry & Hsch & -> & Hn & Hp & Hq).
  apply urlunsplit_no_hash; assumption.
Qed.

(** X24. [validate_seed_urls] keeps exactly the URLs that
    [normalize_url] accepts, normalised, in their order. *)
Theorem validate_seed_urls_keeps_normalised urls :
  validate_seed_urls urls = omap normalize_url urls.
Proof. apply validate_seed_urls_omap. Qed.

Lemma normalize_url_starts_with_scheme_witness :
  normalize_url "  HTTPS://Example.COM:443/a/b/?q=1#top " = Some "https://example.com/a/b?q=1"
  /\ (Str.startswith "http://" "https://example.com/a/b?q=1" = true
      \/ Str.startswith "https://" "https://example.com/a/b?q=1" = true).
Proof.
  assert (H : normalize_url "  HTTPS://Example.COM:443/a/b/?q=1#top "
              = Some "https://example.com/a/b?q=1") by (vm_compute; reflexivity).
  split; [exact H|].
  exact (proj1 (normalize_url_starts_with_scheme _ _ H)).
Defined.

Lemma normalize_url_drops_fragment_witness :
  normalize_url "http://a.test/x?y#z#w" = Some "http://a.test/x?y"
  /\ Str.has_char "#" "http://a.test/x?y" = false.
Proof.
  assert (H : normalize_url "http://a.test/x?y#z#w" = Some "http://a.test/x?y")
    by (vm_compute; reflexivity).
  split; [exact H|].
  exact (normalize_url_drops_fragment _ _ H).
Defined.

Section Lowercase.

Lemma lower_char_idempotent a : Str.lower_char (Str.lower_char a) = Str.lower_char a.
Proof. destruct a as [[] [] [] [] [] [] [] []]; reflexivity. Qed.

Lemma lower_idempotent s : Str.lower (Str.lower s) = Str.lower s.
Proof.
  induction s as [|a s IH]; [reflexivity|].
  simpl. rewrite lower_char_idempotent, IH. reflexivity.
Qed.

End Lowercase.

(** X25. The domain that [get_domain_from_url] returns is in lower
    case, and it is the domain of the lower-cased authority whatever the
    case of the URL's host. *)
Theorem get_domain_from_url_is_lowercase url domain :
  get_domain_from_url url = Some domain -> Str.lower domain = domain.
Proof.
  unfold get_domain_from_url. destruct (urlparse url); [|discriminate].
  intros H. inversion H. apply lower_idempotent.
Qed.

Lemma get_domain_from_url_is_lowercase_witness :
  get_domain_from_url "http://User@C.Test:8080/A" = Some "user@c.test:8080"
  /\ Str.lower "user@c.test:8080" = "user@c.test:8080".
Proof.
  assert (H : get_domain_from_url "http://User@C.Test:8080/A" = Some "user@c.test:8080")
    by (vm_compute; reflexivity).
  split; [exact H|].
  exact (get_domain_from_url_is_lowercase _ _ H).
Defined.

(** ** The admission filter, again *)

(** X26. The admission filter does not see the case of a URL: two URLs
    that differ only in case get the same verdict. *)
Theorem is_url_allowed_case_insensitive config url1 url2 :
  Str.lower url1 = Str.lower url2 ->
  is_url_allowed config url1 = is_url_allowed config url2
  /\ is_url_allowed config (Str.lower url1) = is_url_allowed config url1.
Proof.
  intros H. unfold is_url_allowed. rewrite H, lower_idempotent. split; reflexivity.
Qed.

Lemma is_url_allowed_case_insensitive_witness :
  Str.lower "HTTP://D.Test/File.PDF" = Str.lower "http://d.test/file.pdf"
  /\ is_url_allowed default_config "HTTP://D.Test/File.PDF"
     = is_url_allowed default_config "http://d.test/file.pdf".
Proof.
  assert (H : Str.lower "HTTP://D.Test/File.PDF" = Str.lower "http://d.test/file.pdf")
    by (vm_compute; reflexivity).
  split; [exact H|].
  exact (proj1 (is_url_allowed_case_insensitive default_config _ _ H)).
Defined.

(** X27. When the set of allowed extensions holds the empty
    string, as the default set does, the allowed-extension test never
    rejects: for a URL whose lower-cased form parses, the verdict is that
    the scheme of the lower-cased URL is an allowed protocol and that the
    lower-cased path ends with none of the blocked extensions, taken as
    they are configured. *)
Theorem allowed_extensions_with_empty_entry config url parsed :
  "" ∈ allowed_extensions config ->
  urlparse (Str.lower url) = Some parsed ->
  is_url_allowed config url
  = bool_decide (scheme parsed ∈ allowed_protocols config)
    && negb (endswith_any (Str.lower (path parsed)) (blocked_extensions config)).
Proof.
  intros Hempty Hparse. unfold is_url_allowed. rewrite Hparse.
  assert (Hany : endswith_any (Str.lower (path parsed)) (allowed_extensions config) = true).
  { unfold endswith_any. apply existsb_exists. exists "". split; [|apply endswith_empty].
    apply (proj1 (list_elem_of_In _ _)), (proj2 (elem_of_elements _ _)), Hempty. }
  rewrite Hany. cbn [negb]. rewrite andb_false_r.
  destruct (bool_decide (scheme parsed ∈ allowed_protocols config)); cbn [negb andb];
    [|reflexivity].
  destruct (endswith_any (Str.lower (path parsed)) (blocked_extensions config)); reflexivity.
Qed.

Lemma allowed_extensions_with_empty_entry_witness :
  "" ∈ allowed_extensions default_config
  /\ urlparse (Str.lower "http://a.test/style.css")
     = Some (mkParse "http" "a.test" "/style.css" "" "" "")
  /\ is_url_allowed default_config "http://a.test/style.css" = true.
Proof.
  assert (H1 : "" ∈ allowed_extensions default_config).
  { unfold default_config. cbn [allowed_extensions]. unfold default_allowed_extensions.
    apply elem_of_list_to_set. do 9 apply list_elem_of_further. apply list_elem_of_here. }
  assert (H2 : urlparse (Str.lower "http://a.test/style.css")
               = Some (mkParse "http" "a.test" "/style.css" "" "" ""))
    by (vm_compute; reflexivity).
  split; [exact H1|]. split; [exact H2|].
  rewrite (allowed_extensions_with_empty_entry default_config _ _ H1 H2).
  vm_compute. reflexivity.
Defined.

(** X28. A URL that [validate_url] accepts passes the admission
    filter, so [crawl_url] never answers [blocked] for it. *)
Theorem validated_url_is_not_blocked config w cache url depth :
  validate_url config url = true ->
  is_url_allowed config url = true
  /\ r_status (fst (crawl_url config w cache url depth)) <> "blocked".
Proof.
  unfold validate_url. intros H.
  assert (Ha : is_url_allowed config url = true).
  { repeat case_match; try discriminate.
    match goal with Hn : negb (is_url_allowed _ _) = false |- _ =>
      apply negb_false_iff in Hn; exact Hn end. }
  split; [exact Ha|].
  unfold crawl_url. rewrite Ha. cbn [negb].
  repeat case_match; simpl; discriminate.
Qed.

Lemma validated_url_is_not_blocked_witness :
  validate_url default_config "http://a.test/page.html" = true
  /\ is_url_allowed default_config "http://a.test/page.html" = true.
Proof.
  assert (H : validate_url default_config "http://a.test/page.html" = true)
    by (vm_compute; reflexivity).
  split; [exact H|].
  exact (proj1 (validated_url_is_not_blocked default_config no_network ∅ _ 0 H)).
Defined.

(** ** The seed file *)

(** X29. The seeds loaded from the file are exactly its lines that
    [normalize_url] accepts, normalised and in order: blank lines and
    surrounding whitespace make no difference. *)
Theorem load_seed_urls_keeps_normalised lines :
  _load_seed_urls lines = omap normalize_url lines.
Proof.
  unfold _load_seed_urls. rewrite validate_seed_urls_omap. apply load_seed_urls_omap.
Qed.
